(** * ContractZipAnalyzer (zipports.py): index building, overlap analysis,
      batched export and new-ZIP matching.

    The development embeds [ContractZipAnalyzer] of [src/zipports.py]:
    - Python values: strings are [string] (read as ASCII text), a
      [set] of strings is a [gset string], a [dict] is an association list
      that keeps insertion order (what [dict.items()] iterates over);
    - [st.session_state] is the record [session_state], threaded through a
      state-and-exception monad [M]: an exception leaves the state as it was
      when it was raised, as in Python;
    - pandas and the spreadsheet writer are outside the repository: a
      DataFrame is the list of its rows, [ExcelWriter] appends the workbook it
      writes to [excel_writes], and [DataFrame.sort_values] (called with the
      default, not stable, [kind]) is a parameter constrained by what pandas
      documents of it: the result is a rearrangement of the rows, in
      descending order of the key. *)

From Stdlib Require Import Ascii String.
From stdpp Require Import base gmap sets list sorting strings.

#[local] Set Warnings "-clear-no-such-hyp".

Local Open Scope string_scope.
Local Open Scope list_scope.
Local Open Scope nat_scope.

(** ** Python strings *)

Module Py.

(** [str.isspace] on one ASCII character. *)
Definition isspace (a : ascii) : bool :=
  let n := nat_of_ascii a in
  ((9 <=? n)%nat && (n <=? 13)%nat) || ((28 <=? n)%nat && (n <=? 32)%nat).

Fixpoint lstrip (s : string) : string :=
  match s with
  | String a s' => if isspace a then lstrip s' else s
  | EmptyString => EmptyString
  end.

Fixpoint rstrip (s : string) : string :=
  match s with
  | EmptyString => EmptyString
  | String a s' =>
      match rstrip s' with
      | EmptyString => if isspace a then EmptyString else String a EmptyString
      | r => String a r
      end
  end.

(** [s.strip()] *)
Definition strip (s : string) : string := lstrip (rstrip s).

Definition lower_char (a : ascii) : ascii :=
  let n := nat_of_ascii a in
  if ((65 <=? n)%nat && (n <=? 90)%nat) then ascii_of_nat (n + 32) else a.

(** [s.lower()] *)
Fixpoint lower (s : string) : string :=
  match s with
  | EmptyString => EmptyString
  | String a s' => String (lower_char a) (lower s')
  end.

(** [sub in s] *)
Fixpoint contains (sub s : string) : bool :=
  match s with
  | EmptyString => String.prefix sub EmptyString
  | String _ s' => String.prefix sub s || contains sub s'
  end.

(** [sep.join(l)] *)
Fixpoint join (sep : string) (l : list string) : string :=
  match l with
  | [] => EmptyString
  | [x] => x
  | x :: l' => x +:+ sep +:+ join sep l'
  end.

(** [s.split(sep)] for a non-empty [sep]: the separators are found from
    left to right and do not overlap; [skip] counts the characters of a
    separator still to be passed over, [cur] is the piece being read. *)
Fixpoint split_go (sep : string) (skip : nat) (cur : string) (s : string)
  : list string :=
  match s with
  | EmptyString => [cur]
  | String a s' =>
      match skip with
      | S k => split_go sep k cur s'
      | O =>
          if String.prefix sep s
          then cur :: split_go sep (String.length sep - 1) EmptyString s'
          else split_go sep 0 (cur +:+ String a EmptyString) s'
      end
  end.

Definition split (sep s : string) : list string := split_go sep 0 EmptyString s.

(** [s.replace(old, new)] for a one-character [old]. *)
Fixpoint replace_char (old : ascii) (new : string) (s : string) : string :=
  match s with
  | EmptyString => EmptyString
  | String a s' =>
      if Ascii.eqb a old then new +:+ replace_char old new s'
      else String a (replace_char old new s')
  end.

(** [s[:n]] *)
Fixpoint take (n : nat) (s : string) : string :=
  match n, s with
  | S n', String a s' => String a (take n' s')
  | _, _ => EmptyString
  end.

(** [sorted(xs)] on strings: ascending, by character codes. *)
Fixpoint insert_sorted (x : string) (l : list string) : list string :=
  match l with
  | [] => [x]
  | y :: l' => if String.leb x y then x :: l else y :: insert_sorted x l'
  end.

Definition sorted (l : list string) : list string :=
  foldr insert_sorted [] l.

(** [Series.unique()]: the distinct values, in order of first appearance. *)
Fixpoint unique_go {A} `{EqDecision A} (seen : list A) (l : list A) : list A :=
  match l with
  | [] => []
  | x :: l' =>
      if decide (x ∈ seen) then unique_go seen l'
      else x :: unique_go (x :: seen) l'
  end.

Definition unique {A} `{EqDecision A} (l : list A) : list A := unique_go [] l.

(** [range(start, stop, step)] for a positive [step]; [fuel] bounds the
    number of values, and [stop] is always enough. *)
Fixpoint range_go (fuel i stop step : nat) : list nat :=
  match fuel with
  | O => []
  | S fuel' => if (i <? stop)%nat then i :: range_go fuel' (i + step) stop step else []
  end.

Definition range (start stop step : nat) : list nat :=
  range_go stop start stop step.

(** [l[i:j]] *)
Definition slice {A} (l : list A) (i j : nat) : list A :=
  List.firstn (j - i) (List.skipn i l).

End Py.

(** ** Python dictionaries

    Insertion-ordered: a new key goes to the end, an assignment to a key
    that is present keeps its place. *)

Definition dict (K V : Type) : Type := list (K * V).

Section dict_ops.
Context {K : Type} `{EqDecision K} {V : Type}.

(** [d.get(k)] *)
Fixpoint dict_get (d : dict K V) (k : K) : option V :=
  match d with
  | [] => None
  | (k', v) :: d' => if decide (k = k') then Some v else dict_get d' k
  end.

(** [d[k] = v] *)
Fixpoint dict_set (d : dict K V) (k : K) (v : V) : dict K V :=
  match d with
  | [] => [(k, v)]
  | (k', v') :: d' =>
      if decide (k = k') then (k, v) :: d' else (k', v') :: dict_set d' k v
  end.

(** [k in d] *)
Definition dict_in (k : K) (d : dict K V) : bool :=
  match dict_get d k with Some _ => true | None => false end.

Definition dict_keys (d : dict K V) : list K := d.*1.

Definition dict_items (d : dict K V) : list (K * V) := d.

Definition dict_len (d : dict K V) : nat := length d.
End dict_ops.

(** ** Data *)

(** A cell of a DataFrame read from CSV: [NaN] where the field is empty,
    otherwise its value, kept as the text [str] gives for it. *)
Inductive cell : Type :=
| NaN
| Str (s : string).

#[global] Instance cell_eq_dec : EqDecision cell.
Proof. solve_decision. Defined.

(** [str(v)] *)
Definition str (c : cell) : string :=
  match c with NaN => "nan" | Str s => s end.

(** A row of the main file. ['Contract Name'] and ['Zip Code'] are required
    columns and have type [T]: [cell] as the file is read, [string] once
    [dropna] has removed the rows where one of them is null. An optional
    column that the file does not have is [None], which is when
    [row.get(col, '')] gives the empty string. *)
Record row (T : Type) : Type := {
  Contract_Name : T;
  Zip_Code : T;
  State_ID : option cell;
  Buyer_Name : option cell;
  Buyer_ID : option cell;
  Vertical_Name : option cell;
  Contract_Status : option cell;
  Buyer_Status : option cell
}.
Arguments Contract_Name {T} _.
Arguments Zip_Code {T} _.
Arguments State_ID {T} _.
Arguments Buyer_Name {T} _.
Arguments Buyer_ID {T} _.
Arguments Vertical_Name {T} _.
Arguments Contract_Status {T} _.
Arguments Buyer_Status {T} _.

(** [row.get(col, '')] *)
Definition row_get (c : option cell) : cell :=
  match c with Some v => v | None => Str EmptyString end.

(** The value of [contract_info[contract]]. *)
Record info : Type := {
  buyer_name : cell;
  buyer_id : cell;
  vertical_name : cell;
  contract_status : cell;
  zip_states : dict string string
}.

Inductive exn : Type :=
| KeyError (key : string)            (* [contract_info[contract]] *)
| ColumnKeyError (column : string)   (* pandas: no such column *)
| UnboundLocalError (var : string)
| ValueError (msg : string)
| ReadError.                         (* [pd.read_csv] could not read *)

Record summary_row : Type := {
  s_Contract_Name : string;
  s_Buyer_Name : cell;
  s_Buyer_ID : cell;
  s_Vertical_Name : cell;
  s_Contract_Status : cell;
  Total_ZIP_Codes : nat;
  Total_ZIP_Matches : nat;
  Unique_Contracts_Overlapping : nat
}.

Record detail_row : Type := {
  d_Contract_Name : string;
  d_Buyer_Name : cell;
  d_Buyer_ID : cell;
  d_Vertical_Name : cell;
  d_Contract_Status : cell;
  d_State_ID : string;
  d_Zip_Code : string;
  MATCH : string
}.

Record match_row : Type := {
  New_ZIP_Code : string;
  m_State_ID : string;
  Matching_Contract : string;
  m_Buyer_Name : cell;
  m_Buyer_ID : cell;
  m_Vertical_Name : cell;
  m_Contract_Status : cell;
  Contract_Total_ZIP_Codes : nat
}.

(** The sheets written by [to_excel]. *)
Inductive table : Type :=
| SummaryTable (rows : list summary_row)
| ActiveCountsTable (active_contracts active_buyers : nat)
| DetailedTable (rows : list detail_row)
| MatchCountsTable (rows : list (string * nat))
| ZipMatchesTable (rows : list match_row).

(** A workbook: the [to_excel] calls made on one [ExcelWriter], in order,
    each with its sheet name. *)
Definition workbook : Type := list (string * table).

(** The names of the generated files; [contract_matches_batch_xlsx n] is
    [f"contract_matches_batch_{n}.xlsx"]. *)
Inductive file_name : Type :=
| contract_summary_xlsx
| detailed_contract_zip_matches_xlsx
| contract_matches_batch_xlsx (batch_num : nat)
| new_zip_matches_xlsx.

#[global] Instance file_name_eq_dec : EqDecision file_name.
Proof. solve_decision. Defined.

(** The lines given to [log_message], without the time stamp. [Text] is a
    fixed line; every other constructor is one f-string with its holes. *)
Inductive message : Type :=
| Text (s : string)
| ProcessedChunks (chunk_count : nat)
| RowTotals (total_rows active_rows : nat)
| IndexTotals (total_contracts total_zips : nat)
| ErrorLoading (e : exn)
| SummaryExported (contracts : nat)
| ActiveCounts (contracts buyers : nat)
| DetailedExported (rows : nat)
| MatchCountsExported (contracts : nat)
| TopContract (rank : nat) (contract : string) (count : nat)
| ExportedBatch (batch_num contracts : nat)
| ExportedSheets (contracts batch_num : nat)
| ErrorAnalysis (e : exn)
| FoundNewZips (n : nat)
| TotalNewZips (n : nat)
| MatchedZips (n : nat)
| TotalMatches (n : nat)
| UniqueContractsMatched (n : nat)
| ErrorNewZips (e : exn).

(** [st.session_state]. [output_files] maps a file name to its path under
    [temp_dir]; [excel_writes] is the sequence of workbooks written there. *)
Record session_state : Type := {
  contract_zip_map : dict string (gset string);
  zip_contract_map : dict string (gset string);
  contract_info : dict string info;
  main_file_loaded : bool;
  logs : list message;
  output_files : dict file_name file_name;
  excel_writes : list (file_name * workbook)
}.

(** [ContractZipAnalyzer.__init__] on a new session. *)
Definition init_state : session_state :=
  {| contract_zip_map := []; zip_contract_map := []; contract_info := [];
     main_file_loaded := false; logs := []; output_files := [];
     excel_writes := [] |}.

Definition set_contract_zip_map (d : dict string (gset string)) (s : session_state) :=
  {| contract_zip_map := d; zip_contract_map := zip_contract_map s;
     contract_info := contract_info s; main_file_loaded := main_file_loaded s;
     logs := logs s; output_files := output_files s;
     excel_writes := excel_writes s |}.

Definition set_zip_contract_map (d : dict string (gset string)) (s : session_state) :=
  {| contract_zip_map := contract_zip_map s; zip_contract_map := d;
     contract_info := contract_info s; main_file_loaded := main_file_loaded s;
     logs := logs s; output_files := output_files s;
     excel_writes := excel_writes s |}.

Definition set_contract_info (d : dict string info) (s : session_state) :=
  {| contract_zip_map := contract_zip_map s; zip_contract_map := zip_contract_map s;
     contract_info := d; main_file_loaded := main_file_loaded s;
     logs := logs s; output_files := output_files s;
     excel_writes := excel_writes s |}.

Definition set_main_file_loaded (b : bool) (s : session_state) :=
  {| contract_zip_map := contract_zip_map s; zip_contract_map := zip_contract_map s;
     contract_info := contract_info s; main_file_loaded := b;
     logs := logs s; output_files := output_files s;
     excel_writes := excel_writes s |}.

Definition set_logs (l : list message) (s : session_state) :=
  {| contract_zip_map := contract_zip_map s; zip_contract_map := zip_contract_map s;
     contract_info := contract_info s; main_file_loaded := main_file_loaded s;
     logs := l; output_files := output_files s;
     excel_writes := excel_writes s |}.

Definition set_output_files (d : dict file_name file_name) (s : session_state) :=
  {| contract_zip_map := contract_zip_map s; zip_contract_map := zip_contract_map s;
     contract_info := contract_info s; main_file_loaded := main_file_loaded s;
     logs := logs s; output_files := d;
     excel_writes := excel_writes s |}.

Definition set_excel_writes (w : list (file_name * workbook)) (s : session_state) :=
  {| contract_zip_map := contract_zip_map s; zip_contract_map := zip_contract_map s;
     contract_info := contract_info s; main_file_loaded := main_file_loaded s;
     logs := logs s; output_files := output_files s;
     excel_writes := w |}.

(** ** The monad of the methods *)

Inductive outcome (A : Type) : Type :=
| Ok (a : A)
| Raised (e : exn).
Arguments Ok {A} a.
Arguments Raised {A} e.

Definition M (A : Type) : Type := session_state → outcome A * session_state.

#[global] Instance M_ret : MRet M := λ A a s, (Ok a, s).

#[global] Instance M_bind : MBind M := λ A B f m s,
  match m s with
  | (Ok a, s') => f a s'
  | (Raised e, s') => (Raised e, s')
  end.

Definition raise {A} (e : exn) : M A := λ s, (Raised e, s).

Definition gets {A} (f : session_state → A) : M A := λ s, (Ok (f s), s).

Definition modify (f : session_state → session_state) : M unit :=
  λ s, (Ok tt, f s).

(** [try: body except Exception as e: handler(e)] *)
Definition try_except (body : M unit) (handler : exn → M unit) : M unit :=
  λ s, match body s with
       | (Ok tt, s') => (Ok tt, s')
       | (Raised e, s') => handler e s'
       end.

(** [for x in l: body(x)] *)
Fixpoint for_each {A} (l : list A) (body : A → M unit) : M unit :=
  match l with
  | [] => mret tt
  | x :: l' => body x;; for_each l' body
  end.

(** A loop that appends rows to a list: [body x] gives the rows appended for
    [x], and the loop gives all of them, in order. *)
Fixpoint for_collect {A B} (l : list A) (body : A → M (list B)) : M (list B) :=
  match l with
  | [] => mret []
  | x :: l' => ys ← body x; zs ← for_collect l' body; mret (ys ++ zs)
  end.

(** ** Session state access *)

(** [self.log_message(message)] *)
Definition log_message (msg : message) : M unit :=
  modify (λ s, set_logs (logs s ++ [msg]) s).

(** [st.session_state.contract_zip_map[k]] on a [defaultdict(set)]: a key
    that is missing is inserted with an empty set. *)
Definition contract_zip_map_getitem (k : string) : M (gset string) := λ s,
  match dict_get (contract_zip_map s) k with
  | Some v => (Ok v, s)
  | None => (Ok ∅, set_contract_zip_map (dict_set (contract_zip_map s) k ∅) s)
  end.

(** [st.session_state.zip_contract_map[k]], a [defaultdict(set)] too. *)
Definition zip_contract_map_getitem (k : string) : M (gset string) := λ s,
  match dict_get (zip_contract_map s) k with
  | Some v => (Ok v, s)
  | None => (Ok ∅, set_zip_contract_map (dict_set (zip_contract_map s) k ∅) s)
  end.

(** [st.session_state.contract_info[k]] on a plain [dict]. *)
Definition contract_info_getitem (k : string) : M info := λ s,
  match dict_get (contract_info s) k with
  | Some v => (Ok v, s)
  | None => (Raised (KeyError k), s)
  end.

(** [st.session_state.contract_zip_map[contract].add(zip_code)]: the set
    lives in the dictionary and is changed in place. *)
Definition contract_zip_map_add (contract zip_code : string) : M unit :=
  zips ← contract_zip_map_getitem contract;
  modify (λ s, set_contract_zip_map
                 (dict_set (contract_zip_map s) contract (zips ∪ {[zip_code]})) s).

(** [st.session_state.zip_contract_map[zip_code].add(contract)] *)
Definition zip_contract_map_add (zip_code contract : string) : M unit :=
  contracts ← zip_contract_map_getitem zip_code;
  modify (λ s, set_zip_contract_map
                 (dict_set (zip_contract_map s) zip_code (contracts ∪ {[contract]})) s).

Definition set_zip_state (zip_code state_id : string) (i : info) : info :=
  {| buyer_name := buyer_name i; buyer_id := buyer_id i;
     vertical_name := vertical_name i; contract_status := contract_status i;
     zip_states := dict_set (zip_states i) zip_code state_id |}.

(** ** [process_chunk] *)

(** The entry made for a contract the first time it is seen. *)
Definition row_info (r : row string) : info :=
  {| buyer_name := row_get (Buyer_Name r);
     buyer_id := row_get (Buyer_ID r);
     vertical_name := row_get (Vertical_Name r);
     contract_status := row_get (Contract_Status r);
     zip_states := [] |}.

(** The body of the loop over [chunk.iterrows()]. *)
Definition process_row (r : row string) : M unit :=
  let contract := Contract_Name r in
  let zip_code := Py.strip (Zip_Code r) in
  let state_id := Py.strip (str (row_get (State_ID r))) in
  (* Skip invalid zip codes *)
  if bool_decide (zip_code = EmptyString) || bool_decide (zip_code = "nan")
  then mret tt
  else
    (* Store contract-zip mapping *)
    contract_zip_map_add contract zip_code;;
    zip_contract_map_add zip_code contract;;
    (* Store contract info (only first occurrence) *)
    known ← gets (λ s, dict_in contract (contract_info s));
    (if known : bool then mret tt
     else modify (λ s, set_contract_info
                         (dict_set (contract_info s) contract (row_info r)) s));;
    (* Store state info for each zip *)
    i ← contract_info_getitem contract;
    modify (λ s, set_contract_info
                   (dict_set (contract_info s) contract
                      (set_zip_state zip_code state_id i)) s).

Definition process_chunk (chunk : list (row string)) : M unit :=
  for_each chunk process_row.

(** ** [load_main_file] *)

(** [.str.lower() == 'active'] on one cell; a null cell compares unequal. *)
Definition is_active (c : cell) : bool :=
  match c with
  | Str s => bool_decide (Py.lower s = "active")
  | NaN => false
  end.

(** [if col in chunk.columns: chunk = chunk[chunk[col].str.lower() == 'active']] *)
Definition filter_status (col : row cell → option cell) (chunk : list (row cell))
  : list (row cell) :=
  List.filter (λ r, match col r with Some c => is_active c | None => true end) chunk.

(** [chunk.dropna(subset=['Contract Name', 'Zip Code'])]; what is left of
    ['Zip Code'] is the text [str] gives for the value. *)
Definition dropna (chunk : list (row cell)) : list (row string) :=
  omap (λ r, match Contract_Name r, Zip_Code r with
             | Str contract, Str zip_code =>
                 Some {| Contract_Name := contract; Zip_Code := zip_code;
                         State_ID := State_ID r; Buyer_Name := Buyer_Name r;
                         Buyer_ID := Buyer_ID r; Vertical_Name := Vertical_Name r;
                         Contract_Status := Contract_Status r;
                         Buyer_Status := Buyer_Status r |}
             | _, _ => None
             end) chunk.

(** The loop [for chunk in main_df]. The chunks come from [pd.read_csv] with
    [chunksize=chunk_size]; [None] is a chunk that pandas could not deliver
    (the file cannot be parsed, or a required column is missing). *)
Fixpoint load_chunks (main_df : list (option (list (row cell)))) (filter_active : bool)
    (total_rows active_rows chunk_count : nat) : M (nat * nat) :=
  match main_df with
  | [] => mret (total_rows, active_rows)
  | None :: _ => raise ReadError
  | Some chunk :: rest =>
      let chunk_count := S chunk_count in
      let total_rows := total_rows + length chunk in
      (* Filter active contracts and buyers if specified *)
      let chunk :=
        if filter_active
        then filter_status Buyer_Status (filter_status Contract_Status chunk)
        else chunk in
      (* Remove rows with missing contract name or zip code *)
      let chunk := dropna chunk in
      let active_rows := active_rows + length chunk in
      match chunk with
      | [] => mret tt
      | _ =>
          process_chunk chunk;;
          if bool_decide (chunk_count `mod` 10 = 0)
          then log_message (ProcessedChunks chunk_count) else mret tt
      end;;
      load_chunks rest filter_active total_rows active_rows chunk_count
  end.

Definition load_main_file (main_file : list (option (list (row cell))))
    (filter_active : bool) : M unit :=
  try_except
    (log_message (Text "Starting to load main contracts file...");;
     (* Reset data structures *)
     modify (set_contract_zip_map []);;
     modify (set_zip_contract_map []);;
     modify (set_contract_info []);;
     modify (set_output_files []);;
     '(total_rows, active_rows) ← load_chunks main_file filter_active 0 0 0;
     total_contracts ← gets (λ s, dict_len (contract_zip_map s));
     total_zips ← gets (λ s, dict_len (zip_contract_map s));
     log_message (Text "Main file loaded successfully!");;
     log_message (RowTotals total_rows active_rows);;
     log_message (IndexTotals total_contracts total_zips);;
     modify (set_main_file_loaded true))
    (λ e, log_message (ErrorLoading e)).

(** ** Tables shared by the two analyses *)

(** [with pd.ExcelWriter(path) as writer: ...to_excel(writer, sheet_name=...)] *)
Definition write_excel (file : file_name) (sheets : workbook) : M unit :=
  modify (λ s, set_excel_writes (excel_writes s ++ [(file, sheets)]) s).

(** [st.session_state.output_files[name] = path] *)
Definition register_output (file : file_name) : M unit :=
  modify (λ s, set_output_files (dict_set (output_files s) file file) s).

(** [counts[k] += n] on a [Counter]: a missing key counts as [0]. *)
Definition counter_get (counts : dict string nat) (k : string) : nat :=
  default 0 (dict_get counts k).

Definition counter_add (counts : dict string nat) (k : string) (n : nat)
  : dict string nat :=
  dict_set counts k (counter_get counts k + n).

(** The loop that logs the first ten rows of [match_counts_df]; [i] is the
    index [enumerate] gives. *)
Fixpoint log_top (i : nat) (rows : list (string * nat)) : M unit :=
  match rows with
  | [] => mret tt
  | (contract, count) :: rest =>
      log_message (TopContract (i + 1) contract count);;
      log_top (S i) rest
  end.

(** ** [analyze_main_data] *)

Definition batch_size : nat := 20.

(** The loop [for zip_code in zips] that counts the overlaps of [contract];
    [zips] is the set in the order the loop visits it. *)
Fixpoint count_overlaps (contract : string) (zips : list string)
    (overlap_count : nat) (overlapping_contracts : gset string)
  : M (nat * gset string) :=
  match zips with
  | [] => mret (overlap_count, overlapping_contracts)
  | zip_code :: rest =>
      contracts ← zip_contract_map_getitem zip_code;
      let other_contracts := contracts ∖ {[contract]} in
      count_overlaps contract rest (overlap_count + size other_contracts)
        (overlapping_contracts ∪ other_contracts)
  end.

(** The body of the first loop over [contract_zip_map.items()]. *)
Definition summary_entry (item : string * gset string) : M (list summary_row) :=
  let '(contract, zips) := item in
  i ← contract_info_getitem contract;
  '(overlap_count, overlapping_contracts) ← count_overlaps contract (elements zips) 0 ∅;
  mret [ {| s_Contract_Name := contract;
            s_Buyer_Name := buyer_name i;
            s_Buyer_ID := buyer_id i;
            s_Vertical_Name := vertical_name i;
            s_Contract_Status := contract_status i;
            Total_ZIP_Codes := size zips;
            Total_ZIP_Matches := overlap_count;
            Unique_Contracts_Overlapping := size overlapping_contracts |} ].

(** The rows the second loop appends for one ZIP of [contract]. *)
Definition detail_entry (contract : string) (i : info) (zip_code : string)
  : M (list detail_row) :=
  contracts ← zip_contract_map_getitem zip_code;
  let other_contracts := contracts ∖ {[contract]} in
  let match_string :=
    if decide (other_contracts = ∅) then EmptyString
    else Py.join ", " (Py.sorted (elements other_contracts)) in
  let state_id := default EmptyString (dict_get (zip_states i) zip_code) in
  mret [ {| d_Contract_Name := contract;
            d_Buyer_Name := buyer_name i;
            d_Buyer_ID := buyer_id i;
            d_Vertical_Name := vertical_name i;
            d_Contract_Status := contract_status i;
            d_State_ID := state_id;
            d_Zip_Code := zip_code;
            MATCH := match_string |} ].

Definition detail_entries (item : string * gset string) : M (list detail_row) :=
  let '(contract, zips) := item in
  i ← contract_info_getitem contract;
  for_collect (Py.sorted (elements zips)) (detail_entry contract i).

(** The loop over [detailed_df.iterrows()] that fills the [Counter]. *)
Definition count_matches (detailed_df : list detail_row) : dict string nat :=
  foldl (λ counts r,
           if decide (MATCH r = EmptyString) then counts
           else counter_add counts (d_Contract_Name r)
                  (length (Py.split ", " (MATCH r))))
        [] detailed_df.

(** [len(active)] and [len(active['Buyer Name'].unique())] for the rows of
    the summary whose status is active. *)
Definition active_counts (summary_df : list summary_row) : nat * nat :=
  let active := List.filter (λ r, is_active (s_Contract_Status r)) summary_df in
  (length active, length (Py.unique (s_Buyer_Name <$> active))).

(** [summary_df[summary_df['Unique Contracts Overlapping'] > 0]['Contract Name'].tolist()] *)
Definition contracts_with_matches (summary_df : list summary_row) : list string :=
  s_Contract_Name <$>
    List.filter (λ r, (0 <? Unique_Contracts_Overlapping r)%nat) summary_df.

(** The sheet name of a contract in a batch file. *)
Definition sheet_name_of (contract : string) : string :=
  Py.take 31
    (Py.replace_char "]" EmptyString
       (Py.replace_char "[" EmptyString
          (Py.replace_char "\" "_"
             (Py.replace_char "/" "_" contract)))).

(** The sheets of one batch file: one per contract that has detail rows. *)
Definition batch_sheets (detailed_df : list detail_row) (batch_contracts : list string)
  : workbook :=
  flat_map (λ contract,
      let contract_data :=
        List.filter (λ r, bool_decide (d_Contract_Name r = contract)) detailed_df in
      match contract_data with
      | [] => []
      | _ => [(sheet_name_of contract, DetailedTable contract_data)]
      end) batch_contracts.

(** The loop [for i in range(0, len(contracts_with_matches), batch_size)];
    [batch_num] is [None] as long as the variable is unbound. *)
Fixpoint export_batches (detailed_df : list detail_row) (contracts : list string)
    (starts : list nat) (batch_num : option nat) : M (option nat) :=
  match starts with
  | [] => mret batch_num
  | i :: rest =>
      let batch_contracts := Py.slice contracts i (i + batch_size) in
      let batch_num := i `div` batch_size + 1 in
      write_excel (contract_matches_batch_xlsx batch_num)
        (batch_sheets detailed_df batch_contracts);;
      log_message (ExportedBatch batch_num (length batch_contracts));;
      register_output (contract_matches_batch_xlsx batch_num);;
      export_batches detailed_df contracts rest (Some batch_num)
  end.

Section analysis.

(** [df.sort_values(column, ascending=False)]; [key] reads the column. *)
Variable sort_values : ∀ A : Type, (A → nat) → list A → list A.

Definition analyze_main_data : M unit :=
  try_except
    (log_message (Text "Starting main analysis...");;
     (* Generate contract summary *)
     log_message (Text "Generating contract summary...");;
     items ← gets (λ s, dict_items (contract_zip_map s));
     summary_data ← for_collect items summary_entry;
     (* a DataFrame made from no rows has no columns to sort by *)
     summary_df ← match summary_data with
                   | [] => raise (ColumnKeyError "Total ZIP Codes")
                   | _ => mret (sort_values _ Total_ZIP_Codes summary_data)
                   end;
     (* Generate active counts *)
     let '(active_contracts, active_buyers) := active_counts summary_df in
     let active_counts_df := ActiveCountsTable active_contracts active_buyers in
     (* Export contract summary and active counts *)
     write_excel contract_summary_xlsx
       [("Contract Summary", SummaryTable summary_df);
        ("Active Counts", active_counts_df)];;
     log_message (SummaryExported (length summary_df));;
     log_message (ActiveCounts active_contracts active_buyers);;
     register_output contract_summary_xlsx;;
     (* Generate detailed matches view *)
     log_message (Text "Generating detailed matches view...");;
     items ← gets (λ s, dict_items (contract_zip_map s));
     detailed_df ← for_collect items detail_entries;
     (* Generate contract match counts for detailed view *)
     let contract_match_counts := count_matches detailed_df in
     let match_counts_df := sort_values _ snd (dict_items contract_match_counts) in
     (* Export detailed matches, match counts, and active counts *)
     write_excel detailed_contract_zip_matches_xlsx
       [("Detailed Matches", DetailedTable detailed_df);
        ("Contract Match Counts", MatchCountsTable match_counts_df);
        ("Active Counts", active_counts_df)];;
     log_message (DetailedExported (length detailed_df));;
     log_message (MatchCountsExported (length match_counts_df));;
     register_output detailed_contract_zip_matches_xlsx;;
     (* Log top 10 contracts by match count *)
     log_message (Text "Top 10 contracts by ZIP matches:");;
     log_top 0 (List.firstn 10 match_counts_df);;
     (* Export individual contract sheets for contracts with matches *)
     log_message (Text "Exporting individual contract sheets...");;
     let contracts := contracts_with_matches summary_df in
     batch_num ← export_batches detailed_df contracts
                   (Py.range 0 (length contracts) batch_size) None;
     match batch_num with
     | None => raise (UnboundLocalError "batch_num")
     | Some batch_num =>
         log_message (ExportedSheets (length contracts) batch_num);;
         log_message (Text "Main analysis completed successfully!")
     end)
    (λ e, log_message (ErrorAnalysis e)).

(** ** [analyze_new_zips] *)

(** The first column whose lower-cased name contains ["zip"]. *)
Definition find_zip_col (columns : list string) : option string :=
  List.find (λ col, Py.contains "zip" (Py.lower col)) columns.

(** The body of the loop [for contract in matching_contracts]. *)
Definition match_entry (zip_code contract : string) : M (list match_row) :=
  i ← contract_info_getitem contract;
  let state_id := default EmptyString (dict_get (zip_states i) zip_code) in
  zips ← contract_zip_map_getitem contract;
  mret [ {| New_ZIP_Code := zip_code;
            m_State_ID := state_id;
            Matching_Contract := contract;
            m_Buyer_Name := buyer_name i;
            m_Buyer_ID := buyer_id i;
            m_Vertical_Name := vertical_name i;
            m_Contract_Status := contract_status i;
            Contract_Total_ZIP_Codes := size zips |} ].

(** The body of the loop [for zip_code in new_zips]. *)
Definition match_zip (zip_code : string) : M (list match_row) :=
  present ← gets (λ s, dict_in zip_code (zip_contract_map s));
  if present : bool then
    matching_contracts ← zip_contract_map_getitem zip_code;
    for_collect (elements matching_contracts) (match_entry zip_code)
  else mret [].

(** [new_zip_df[zip_col].astype(str).str.strip().unique()] *)
Definition normalize_zips (values : list cell) : list string :=
  Py.unique ((λ v, Py.strip (str v)) <$> values).

(** [Counter(match_df['Matching Contract'])] *)
Definition count_contracts (match_df : list match_row) : dict string nat :=
  foldl (λ counts r, counter_add counts (Matching_Contract r) 1) [] match_df.

Definition active_match_counts (match_df : list match_row) : nat * nat :=
  let active_match_df :=
    List.filter (λ r, is_active (m_Contract_Status r)) match_df in
  (length (Py.unique (Matching_Contract <$> active_match_df)),
   length (Py.unique (m_Buyer_Name <$> active_match_df))).

(** [new_zip_file] is the DataFrame [pd.read_csv] gives, as its columns in
    order, each with its name and its values; [None] if it cannot be read. *)
Definition analyze_new_zips (new_zip_file : option (list (string * list cell)))
  : M unit :=
  try_except
    (log_message (Text "Loading new ZIP codes file...");;
     new_zip_df ← match new_zip_file with
                  | None => raise ReadError
                  | Some df => mret (prod_map Py.strip id <$> df)
                  end;
     match find_zip_col (new_zip_df.*1) with
     | None =>
         raise (ValueError "No ZIP code column found. Expected column containing 'zip'")
     | Some zip_col =>
         let column := default [] (dict_get new_zip_df zip_col) in
         log_message (FoundNewZips (length column));;
         (* Analyze matches *)
         log_message (Text "Matching new ZIP codes against active contracts...");;
         let new_zips := normalize_zips column in
         match_results ← for_collect new_zips match_zip;
         match match_results with
         | [] => log_message (Text "No matches found for the new ZIP codes.")
         | _ =>
             let match_df := match_results in
             (* Generate contract match counts *)
             let match_counts_df :=
               sort_values _ snd (dict_items (count_contracts match_df)) in
             (* Generate active counts *)
             let '(active_contracts, active_buyers) := active_match_counts match_df in
             (* Export matches, match counts, and active counts *)
             write_excel new_zip_matches_xlsx
               [("ZIP Matches", ZipMatchesTable match_df);
                ("Contract Match Counts", MatchCountsTable match_counts_df);
                ("Active Counts", ActiveCountsTable active_contracts active_buyers)];;
             (* Summary statistics *)
             log_message (Text "New ZIP analysis completed!");;
             log_message (TotalNewZips (length new_zips));;
             log_message (MatchedZips (length (Py.unique (New_ZIP_Code <$> match_df))));;
             log_message (TotalMatches (length match_df));;
             log_message (UniqueContractsMatched
                            (length (Py.unique (Matching_Contract <$> match_df))));;
             log_message (ActiveCounts active_contracts active_buyers);;
             log_message (Text "Results exported to: new_zip_matches.xlsx");;
             (* Log top 10 contracts by match count *)
             log_message (Text "Top 10 contracts by ZIP matches:");;
             log_top 0 (List.firstn 10 match_counts_df);;
             register_output new_zip_matches_xlsx
         end
     end)
    (λ e, log_message (ErrorNewZips e)).

End analysis.

(** ** Two sorts that meet what pandas documents of [sort_values]

    Both insert the rows one by one, from the last to the first, into the
    sorted rest. [sort_values_stable] puts a row before the rows of equal
    key, so that equal keys keep the order they came in;
    [sort_values_reversing] puts it after them. *)

Fixpoint insert_desc {A : Type} (key : A → nat) (before_equal : bool) (x : A)
    (l : list A) : list A :=
  match l with
  | [] => [x]
  | y :: l' =>
      if (if before_equal then key y <=? key x else key y <? key x)%nat
      then x :: l
      else y :: insert_desc key before_equal x l'
  end.

Definition sort_values_stable (A : Type) (key : A → nat) (l : list A) : list A :=
  foldr (insert_desc key true) [] l.

Definition sort_values_reversing (A : Type) (key : A → nat) (l : list A) : list A :=
  foldr (insert_desc key false) [] l.

(** ** Scenarios *)

Definition mk_row (contract zip_code : string) (state_id status : option cell)
  : row string :=
  {| Contract_Name := contract; Zip_Code := zip_code; State_ID := state_id;
     Buyer_Name := None; Buyer_ID := None; Vertical_Name := None;
     Contract_Status := status; Buyer_Status := None |}.

(** Scenario A: rows (C1, ZIP1), (C2, ZIP1), (C3, ZIP2), all active. *)
Definition scenario_A_rows : list (row string) :=
  [ mk_row "C1" "ZIP1" None (Some (Str "active"));
    mk_row "C2" "ZIP1" None (Some (Str "active"));
    mk_row "C3" "ZIP2" None (Some (Str "active")) ].

Definition scenario_A : session_state :=
  (process_chunk scenario_A_rows init_state).2.



(** A contract whose name holds the separator of the MATCH column. *)
Definition separator_rows : list (row string) :=
  [ mk_row "Acme, Inc" "10001" None None; mk_row "B" "10001" None None ].

Definition separator_state : session_state :=
  (process_chunk separator_rows init_state).2.

(** ** Reading the index *)

(** The set a [defaultdict(set)] holds under [k]; empty if [k] is missing. *)
Definition members (d : dict string (gset string)) (k : string) : gset string :=
  default ∅ (dict_get d k).

(** The state id recorded for a (contract, ZIP) pair. *)
Definition state_of (s : session_state) (contract zip_code : string) : option string :=
  i ← dict_get (contract_info s) contract; dict_get (zip_states i) zip_code.

(** The metadata recorded for a contract. *)
Definition metadata_of (s : session_state) (contract : string)
  : option (cell * cell * cell * cell) :=
  i ← dict_get (contract_info s) contract;
  Some (buyer_name i, buyer_id i, vertical_name i, contract_status i).

(** The ZIP code under which [process_chunk] indexes a row; [None] if it
    skips the row. *)
Definition row_zip (r : row string) : option string :=
  let zip_code := Py.strip (Zip_Code r) in
  if bool_decide (zip_code = EmptyString) || bool_decide (zip_code = "nan")
  then None else Some zip_code.

(** The state id [process_chunk] reads from a row. *)
Definition row_state_id (r : row string) : string :=
  Py.strip (str (row_get (State_ID r))).

(** The state after a row that is indexed under [z]. *)
Definition index_row (r : row string) (z : string) (s : session_state) : session_state :=
  let c := Contract_Name r in
  set_contract_info
    (dict_set (contract_info s) c
       (set_zip_state z (row_state_id r)
          (default (row_info r) (dict_get (contract_info s) c))))
    (set_zip_contract_map
       (dict_set (zip_contract_map s) z (members (zip_contract_map s) z ∪ {[c]}))
       (set_contract_zip_map
          (dict_set (contract_zip_map s) c (members (contract_zip_map s) c ∪ {[z]}))
          s)).

(** Bidirectional consistency of the two maps. *)
Definition consistent (s : session_state) : Prop :=
  ∀ c z, c ∈ members (zip_contract_map s) z ↔ z ∈ members (contract_zip_map s) c.

(** Every indexed contract has its metadata, with a state id for each of
    its ZIPs. *)
Definition info_complete (s : session_state) : Prop :=
  ∀ c, c ∈ dict_keys (contract_zip_map s) →
    ∃ i, dict_get (contract_info s) c = Some i ∧
         ∀ z, z ∈ members (contract_zip_map s) c → is_Some (dict_get (zip_states i) z).

(** No key of the two maps holds an empty set. *)
Definition no_empty_sets (s : session_state) : Prop :=
  (∀ c Z, dict_get (contract_zip_map s) c = Some Z → Z ≠ ∅) ∧
  (∀ z C, dict_get (zip_contract_map s) z = Some C → C ≠ ∅).

Record index_ok (s : session_state) : Prop := {
  ok_keys : NoDup (dict_keys (contract_zip_map s));
  ok_consistent : consistent s;
  ok_info : info_complete s;
  ok_no_empty : no_empty_sets s
}.

(** The three parts of the index are the same in [s] and [s']. *)
Definition same_index (s s' : session_state) : Prop :=
  contract_zip_map s' = contract_zip_map s ∧
  zip_contract_map s' = zip_contract_map s ∧
  contract_info s' = contract_info s.

(** The states a session goes through: it starts with [init_state]; the
    buttons run [load_main_file], [analyze_main_data] and [analyze_new_zips];
    inside a load, the state after each [process_chunk] is one too (it is
    where a load that fails stops). *)
Inductive reachable : session_state → Prop :=
| reachable_init : reachable init_state
| reachable_chunk s chunk :
    reachable s → reachable (process_chunk chunk s).2
| reachable_load s main_file filter_active :
    reachable s → reachable (load_main_file main_file filter_active s).2
| reachable_main s sort_values :
    reachable s → reachable (analyze_main_data sort_values s).2
| reachable_new_zips s sort_values new_zip_file :
    reachable s → reachable (analyze_new_zips sort_values new_zip_file s).2.

(** What pandas documents of [sort_values(column, ascending=False)]: the
    rows are rearranged, in descending order of the column. *)
Definition sort_contract (sort_values : ∀ A : Type, (A → nat) → list A → list A) : Prop :=
  ∀ (A : Type) (key : A → nat) (l : list A),
    sort_values A key l ≡ₚ l ∧
    StronglySorted (λ x y, (key y ≤ key x)%nat) (sort_values A key l).

(** Rows of equal key keep the order they had before the sort. *)
Definition keeps_ties (A : Type) (key : A → nat) (before after : list A) : Prop :=
  ∀ k, List.filter (λ x, (key x =? k)%nat) after = List.filter (λ x, (key x =? k)%nat) before.

(** ** What the analyses compute, as functions of the index *)

(** [overlap_count] and [overlapping_contracts] of a contract whose ZIP set
    is [Z]. *)
Definition overlap_count (s : session_state) (c : string) (Z : gset string) : nat :=
  sum_list ((λ z, size (members (zip_contract_map s) z ∖ {[c]})) <$> elements Z).

Definition overlapping_contracts (s : session_state) (c : string) (Z : gset string)
  : gset string :=
  ⋃ ((λ z, members (zip_contract_map s) z ∖ {[c]}) <$> elements Z).

Definition no_info : info :=
  {| buyer_name := NaN; buyer_id := NaN; vertical_name := NaN;
     contract_status := NaN; zip_states := [] |}.

Definition info_of (s : session_state) (c : string) : info :=
  default no_info (dict_get (contract_info s) c).

Definition summary_of (s : session_state) (item : string * gset string) : summary_row :=
  {| s_Contract_Name := item.1;
     s_Buyer_Name := buyer_name (info_of s item.1);
     s_Buyer_ID := buyer_id (info_of s item.1);
     s_Vertical_Name := vertical_name (info_of s item.1);
     s_Contract_Status := contract_status (info_of s item.1);
     Total_ZIP_Codes := size item.2;
     Total_ZIP_Matches := overlap_count s item.1 item.2;
     Unique_Contracts_Overlapping := size (overlapping_contracts s item.1 item.2) |}.

(** [summary_data], in the order of [contract_zip_map.items()]. *)
Definition summary_data (s : session_state) : list summary_row :=
  summary_of s <$> contract_zip_map s.

Definition detail_of (s : session_state) (c z : string) : detail_row :=
  let other_contracts := members (zip_contract_map s) z ∖ {[c]} in
  {| d_Contract_Name := c;
     d_Buyer_Name := buyer_name (info_of s c);
     d_Buyer_ID := buyer_id (info_of s c);
     d_Vertical_Name := vertical_name (info_of s c);
     d_Contract_Status := contract_status (info_of s c);
     d_State_ID := default EmptyString (dict_get (zip_states (info_of s c)) z);
     d_Zip_Code := z;
     MATCH := if decide (other_contracts = ∅) then EmptyString
              else Py.join ", " (Py.sorted (elements other_contracts)) |}.

(** [detailed_data] *)
Definition detailed_data (s : session_state) : list detail_row :=
  item ← contract_zip_map s; detail_of s item.1 <$> Py.sorted (elements item.2).

Definition match_of (s : session_state) (z c : string) : match_row :=
  {| New_ZIP_Code := z;
     m_State_ID := default EmptyString (dict_get (zip_states (info_of s c)) z);
     Matching_Contract := c;
     m_Buyer_Name := buyer_name (info_of s c);
     m_Buyer_ID := buyer_id (info_of s c);
     m_Vertical_Name := vertical_name (info_of s c);
     m_Contract_Status := contract_status (info_of s c);
     Contract_Total_ZIP_Codes := size (members (contract_zip_map s) c) |}.

(** [match_results] for the deduplicated ZIPs [new_zips]. *)
Definition match_results_of (s : session_state) (new_zips : list string) : list match_row :=
  z ← new_zips;
  if dict_in z (zip_contract_map s)
  then match_of s z <$> elements (members (zip_contract_map s) z)
  else [].


(** The batch files written for the slices that start at [starts]. *)
Definition batch_files (detailed_df : list detail_row) (contracts : list string)
    (starts : list nat) : list (file_name * workbook) :=
  (λ i, (contract_matches_batch_xlsx (i `div` batch_size + 1),
         batch_sheets detailed_df (Py.slice contracts i (i + batch_size)))) <$> starts.

(** The ZIP column of a new-ZIP file, if it has one. *)
Definition zip_column (df : list (string * list cell)) : option (list cell) :=
  let new_zip_df := prod_map Py.strip id <$> df in
  zip_col ← find_zip_col (new_zip_df.*1);
  Some (default [] (dict_get new_zip_df zip_col)).


(** ** What the written workbooks hold *)

(** The table under [sheet_name] in the last workbook written as [file]. *)
Definition written_sheet (s : session_state) (file : file_name) (sheet_name : string)
  : option table :=
  wb ← dict_get (reverse (excel_writes s)) file; dict_get wb sheet_name.

(** The contracts of the Contract Summary table, in its order, each with its
    total ZIP count and its total ZIP matches. *)
Definition written_summary (s : session_state) : option (list (string * nat * nat)) :=
  match written_sheet s contract_summary_xlsx "Contract Summary" with
  | Some (SummaryTable rows) =>
      Some ((λ r, (s_Contract_Name r, Total_ZIP_Codes r, Total_ZIP_Matches r)) <$> rows)
  | _ => None
  end.

(** The rows of the Contract Match Counts table of the detailed report. *)
Definition written_match_counts (s : session_state) : option (list (string * nat)) :=
  match written_sheet s detailed_contract_zip_matches_xlsx "Contract Match Counts" with
  | Some (MatchCountsTable rows) => Some rows
  | _ => None
  end.

(** The batch files among the written workbooks. *)
Definition is_batch_file (file : file_name) : bool :=
  match file with contract_matches_batch_xlsx _ => true | _ => false end.

(** ** More scenarios *)

(** Scenario A as a main file of one chunk. *)
Definition scenario_A_file : list (option (list (row cell))) :=
  [ Some ((λ r, {| Contract_Name := Str (Contract_Name r);
                   Zip_Code := Str (Zip_Code r);
                   State_ID := State_ID r; Buyer_Name := Buyer_Name r;
                   Buyer_ID := Buyer_ID r; Vertical_Name := Vertical_Name r;
                   Contract_Status := Contract_Status r;
                   Buyer_Status := Buyer_Status r |}) <$> scenario_A_rows) ].

(** Scenario B: the query [ZIP1, ZIP9]. *)
Definition scenario_B_file : option (list (string * list cell)) :=
  Some [("Zip Code", [Str "ZIP1"; Str "ZIP9"])].


(** ** What a load takes from the file *)

(** The rows of one chunk that reach [process_chunk]: the chunk after the
    status filters, if they are asked for, and after [dropna]. *)
Definition kept_rows (filter_active : bool) (chunk : list (row cell)) : list (row string) :=
  dropna (if filter_active
          then filter_status Buyer_Status (filter_status Contract_Status chunk)
          else chunk).

(** The rows [load_main_file] gives to [process_chunk], over the chunks read
    before the first one that cannot be read. *)
Fixpoint ingested (main_file : list (option (list (row cell)))) (filter_active : bool)
  : list (row string) :=
  match main_file with
  | Some chunk :: rest => kept_rows filter_active chunk ++ ingested rest filter_active
  | _ => []
  end.

(** Every chunk of the file can be read. *)
Definition readable (main_file : list (option (list (row cell)))) : bool :=
  forallb (λ chunk, match chunk with Some _ => true | None => false end) main_file.

(** [.str.lower()] is there on a column that holds text, not on a column
    of nulls only: the status filter can be applied to a chunk when each of
    the two status columns is missing or has a cell that is not null. *)
Definition column_is_text (col : row cell → option cell) (chunk : list (row cell)) : bool :=
  forallb (λ r, match col r with None => true | Some _ => false end) chunk ||
  existsb (λ r, match col r with Some (Str _) => true | _ => false end) chunk.

(** The filters asked for can be applied to every chunk of the file. *)
Definition filterable (main_file : list (option (list (row cell)))) (filter_active : bool)
  : bool :=
  negb filter_active ||
  forallb (λ chunk, match chunk with
                    | Some rows => column_is_text Contract_Status rows &&
                                   column_is_text Buyer_Status rows
                    | None => true
                    end) main_file.

(** All the rows of the file, whatever the chunks they are read in. *)
Definition file_rows (main_file : list (option (list (row cell)))) : list (row cell) :=
  concat (omap id main_file).

(** A status cell passes the filter: the column is missing, or the cell is
    "active" whatever the case of its letters. *)
Definition status_ok (c : option cell) : bool :=
  match c with Some v => is_active v | None => true end.

(** Scenario C: an inactive contract beside an active one. *)
Definition scenario_C_file : list (option (list (row cell))) :=
  [ Some [ {| Contract_Name := Str "C1"; Zip_Code := Str "ZIP1"; State_ID := None;
              Buyer_Name := None; Buyer_ID := None; Vertical_Name := None;
              Contract_Status := Some (Str "Active"); Buyer_Status := None |};
           {| Contract_Name := Str "C2"; Zip_Code := Str "ZIP1"; State_ID := None;
              Buyer_Name := None; Buyer_ID := None; Vertical_Name := None;
              Contract_Status := Some (Str "Inactive"); Buyer_Status := None |} ] ].


(** ** Further invariants of the index *)

(** [contract_info] has the contracts of [contract_zip_map], in the same
    order, and the [zip_states] of a contract has its ZIPs as keys. *)
Definition info_mirrors_index (s : session_state) : Prop :=
  dict_keys (contract_info s) = dict_keys (contract_zip_map s) ∧
  ∀ c i, dict_get (contract_info s) c = Some i →
    ∀ z, z ∈ dict_keys (zip_states i) ↔ z ∈ members (contract_zip_map s) c.

(** A ZIP as the index keeps it: trimmed, not empty, not ["nan"]. *)
Definition normalized_zip (z : string) : Prop :=
  Py.strip z = z ∧ z ≠ EmptyString ∧ z ≠ "nan".

Definition zips_normalized (s : session_state) : Prop :=
  ∀ z, z ∈ dict_keys (zip_contract_map s) → normalized_zip z.

(** ** Characters of a string *)

(** [a in s] for a character [a]. *)
Fixpoint has_char (a : ascii) (s : string) : bool :=
  match s with
  | EmptyString => false
  | String b s' => Ascii.eqb a b || has_char a s'
  end.

(** The characters [sheet_name_of] takes out of a contract name. *)
Definition sheet_name_clean (s : string) : Prop :=
  has_char "/" s = false ∧ has_char "\" s = false ∧
  has_char "[" s = false ∧ has_char "]" s = false.

(** ** What an analysis leaves of the session *)

(** From [s] to [s'] the flag and the metadata are kept, and the log, the
    written workbooks and the registered files have only grown. *)
Definition extends (s s' : session_state) : Prop :=
  main_file_loaded s' = main_file_loaded s ∧
  contract_info s' = contract_info s ∧
  logs s `prefix_of` logs s' ∧
  excel_writes s `prefix_of` excel_writes s' ∧
  dict_keys (output_files s) ⊆ dict_keys (output_files s').

(** A computation that takes every state to one that extends it, whether
    it returns or raises. *)
Definition framed {A} (m : M A) : Prop := ∀ s, extends s (m s).2.



(** ** Status columns that pandas reads as text

    [.str.lower()] is there on a column that holds text, not on a column
    of nulls only: the summary needs a contract whose status is not null,
    the match rows need a row whose status is not null. (A file without
    the status column gives every contract the empty text.) *)
Definition statuses_are_text (s : session_state) : Prop :=
  ∃ c i, dict_get (contract_info s) c = Some i ∧ contract_status i ≠ NaN.

(** * Properties *)

(** ** Dictionaries *)

Section dict_facts.
Context {K : Type} `{EqDecision K} {V : Type}.
Implicit Types (d : dict K V) (k : K) (v : V).

Lemma dict_get_set d k v k' :
  dict_get (dict_set d k v) k' = if decide (k' = k) then Some v else dict_get d k'.
Proof.
  induction d as [|[k0 v0] d IH]; simpl.
  - by repeat case_decide.
  - destruct (decide (k = k0)) as [->|Hne]; simpl.
    + by repeat case_decide; simplify_eq.
    + rewrite IH. by repeat case_decide; simplify_eq.
Qed.

Lemma dict_get_set_eq d k v : dict_get (dict_set d k v) k = Some v.
Proof. rewrite dict_get_set. by case_decide. Qed.


Lemma dict_set_set d k v v' : dict_set (dict_set d k v) k v' = dict_set d k v'.
Proof.
  induction d as [|[k0 v0] d IH]; simpl.
  - by case_decide.
  - destruct (decide (k = k0)) as [->|Hne]; simpl; case_decide; simplify_eq; auto.
    by rewrite IH.
Qed.

Lemma dict_set_id d k v : dict_get d k = Some v → dict_set d k v = d.
Proof.
  induction d as [|[k0 v0] d IH]; simpl; [done|].
  case_decide; intros; simplify_eq; [done|]. by rewrite IH.
Qed.

Lemma elem_of_dict_keys d k : k ∈ dict_keys d ↔ is_Some (dict_get d k).
Proof.
  unfold dict_keys. induction d as [|[k0 v0] d IH]; csimpl.
  - rewrite elem_of_nil. split; [done|]. by intros [? ?].
  - rewrite elem_of_cons, IH. case_decide as Hk; [|tauto].
    split; [by eauto|by left].
Qed.

Lemma dict_in_true d k : dict_in k d = true ↔ k ∈ dict_keys d.
Proof.
  rewrite elem_of_dict_keys. unfold dict_in.
  destruct (dict_get d k); split; intros Hk;
    first [done | by eauto | by destruct Hk].
Qed.

Lemma dict_keys_set d k v :
  dict_keys (dict_set d k v) =
    if dict_in k d then dict_keys d else dict_keys d ++ [k].
Proof.
  unfold dict_keys, dict_in. induction d as [|[k0 v0] d IH]; csimpl; [done|].
  case_decide; simplify_eq; csimpl; [done|].
  rewrite IH. by destruct (dict_get d k).
Qed.

Lemma dict_keys_set_NoDup d k v :
  NoDup (dict_keys d) → NoDup (dict_keys (dict_set d k v)).
Proof.
  intros Hd. rewrite dict_keys_set.
  destruct (dict_in k d) eqn:Hin; [done|].
  apply NoDup_app. split_and!; [done| |apply NoDup_singleton].
  intros x Hx ->%list_elem_of_singleton.
  apply dict_in_true in Hx. congruence.
Qed.

Lemma dict_get_elem_of d k v : dict_get d k = Some v → (k, v) ∈ d.
Proof.
  induction d as [|[k0 v0] d IH]; simpl; [done|].
  case_decide; intros; simplify_eq; [left|right; auto].
Qed.

Lemma elem_of_dict_get d k v :
  NoDup (dict_keys d) → (k, v) ∈ d → dict_get d k = Some v.
Proof.
  unfold dict_keys. induction d as [|[k0 v0] d IH]; csimpl.
  - by intros _ ?%elem_of_nil.
  - intros [Hk0 Hd]%NoDup_cons [?|Hin]%elem_of_cons; simplify_eq.
    + by case_decide.
    + case_decide; [|by auto]. subst. destruct Hk0.
      apply list_elem_of_fmap. by exists (k0, v).
Qed.
End dict_facts.

Lemma members_set d k v k' :
  members (dict_set d k v) k' = if decide (k' = k) then v else members d k'.
Proof. unfold members. rewrite dict_get_set. by case_decide. Qed.

Lemma members_get d k v : dict_get d k = Some v → members d k = v.
Proof. unfold members. by intros ->. Qed.

Lemma elem_of_members d k x :
  x ∈ members d k ↔ ∃ v, dict_get d k = Some v ∧ x ∈ v.
Proof.
  unfold members. destruct (dict_get d k) as [v|]; simpl.
  - naive_solver.
  - set_solver.
Qed.

(** ** The monad *)

Lemma bind_run {A B} (m : M A) (f : A → M B) s :
  (m ≫= f) s = match m s with
                | (Ok a, s') => f a s'
                | (Raised e, s') => (Raised e, s')
                end.
Proof. reflexivity. Qed.

Lemma bind_ok {A B} (m : M A) (f : A → M B) s a s' :
  m s = (Ok a, s') → (m ≫= f) s = f a s'.
Proof. intros Hm. by rewrite bind_run, Hm. Qed.

(** A loop whose body reads, without changing the state, collects what the
    bodies give. *)
Lemma for_collect_pure {A B} (l : list A) (body : A → M (list B))
    (f : A → list B) s :
  (∀ x, x ∈ l → body x s = (Ok (f x), s)) →
  for_collect l body s = (Ok (x ← l; f x), s).
Proof.
  induction l as [|x l IH]; intros Hbody; simpl; [done|].
  rewrite (bind_ok _ _ _ _ _ (Hbody x ltac:(left))).
  rewrite (bind_ok _ _ _ _ _ (IH ltac:(intros; apply Hbody; by right))).
  done.
Qed.

(** ** [process_chunk] *)

Lemma contract_zip_map_add_run c z s :
  contract_zip_map_add c z s =
    (Ok tt, set_contract_zip_map
              (dict_set (contract_zip_map s) c (members (contract_zip_map s) c ∪ {[z]})) s).
Proof.
  unfold contract_zip_map_add, contract_zip_map_getitem, members.
  rewrite bind_run. destruct (dict_get (contract_zip_map s) c) as [Z|]; simpl; [done|].
  unfold modify; simpl. by rewrite dict_set_set.
Qed.

Lemma zip_contract_map_add_run z c s :
  zip_contract_map_add z c s =
    (Ok tt, set_zip_contract_map
              (dict_set (zip_contract_map s) z (members (zip_contract_map s) z ∪ {[c]})) s).
Proof.
  unfold zip_contract_map_add, zip_contract_map_getitem, members.
  rewrite bind_run. destruct (dict_get (zip_contract_map s) z) as [C|]; simpl; [done|].
  unfold modify; simpl. by rewrite dict_set_set.
Qed.

Lemma process_row_run r s :
  process_row r s = (Ok tt, from_option (λ z, index_row r z s) s (row_zip r)).
Proof.
  unfold process_row, row_zip.
  destruct (bool_decide _ || bool_decide _); [done|]. simpl from_option.
  rewrite (bind_ok _ _ _ _ _ (contract_zip_map_add_run _ _ _)).
  rewrite (bind_ok _ _ _ _ _ (zip_contract_map_add_run _ _ _)).
  unfold index_row, row_state_id, dict_in, contract_info_getitem, gets, modify.
  destruct (dict_get (contract_info s) (Contract_Name r)) as [i|] eqn:Hi;
    rewrite !bind_run; simpl; rewrite ?Hi; simpl;
    rewrite ?bind_run; simpl; rewrite ?Hi, ?dict_get_set_eq; simpl;
    by rewrite ?dict_set_set.
Qed.

Lemma index_row_consistent r z s : consistent s → consistent (index_row r z s).
Proof.
  unfold consistent, index_row; simpl. intros Hs c' z'.
  rewrite !members_set. specialize (Hs c' z') as Hcz.
  specialize (Hs c' z) as Hz. specialize (Hs (Contract_Name r) z') as Hc.
  repeat case_decide; subst; set_solver.
Qed.

Lemma set_zip_state_get z sid i z' :
  dict_get (zip_states (set_zip_state z sid i)) z' =
    if decide (z' = z) then Some sid else dict_get (zip_states i) z'.
Proof. unfold set_zip_state; simpl. apply dict_get_set. Qed.

Lemma index_row_info_complete r z s :
  info_complete s → info_complete (index_row r z s).
Proof.
  unfold info_complete, index_row; simpl. intros Hs c'.
  rewrite dict_keys_set. intros Hc'. rewrite dict_get_set, members_set.
  destruct (decide (c' = Contract_Name r)) as [->|Hne].
  - eexists; split; [done|]. intros z' Hz'. rewrite set_zip_state_get.
    destruct (decide (z' = z)) as [->|Hzne]; [by eauto|].
    assert (z' ∈ members (contract_zip_map s) (Contract_Name r)) as Hin by set_solver.
    apply elem_of_members in Hin as Hget. destruct Hget as (Z & HZ & _).
    destruct (Hs (Contract_Name r)) as (i & Hi & Hstates).
    { apply elem_of_dict_keys. by eauto. }
    rewrite Hi; simpl. by apply Hstates.
  - apply Hs. destruct (dict_in _ _); [done|].
    apply elem_of_app in Hc' as [?|?%list_elem_of_singleton]; done.
Qed.

Lemma index_row_no_empty_sets r z s :
  no_empty_sets s → no_empty_sets (index_row r z s).
Proof.
  unfold no_empty_sets, index_row; simpl. intros [Hc Hz]. split.
  - intros c' Z. rewrite dict_get_set. case_decide; [|by apply Hc].
    intros [= <-]. set_solver.
  - intros z' C. rewrite dict_get_set. case_decide; [|by apply Hz].
    intros [= <-]. set_solver.
Qed.

Lemma index_row_ok r z s : index_ok s → index_ok (index_row r z s).
Proof.
  intros [Hk Hc Hi He]. split.
  - simpl. by apply dict_keys_set_NoDup.
  - by apply index_row_consistent.
  - by apply index_row_info_complete.
  - by apply index_row_no_empty_sets.
Qed.

Lemma process_chunk_run chunk s :
  process_chunk chunk s =
    (Ok tt, foldl (λ s r, from_option (λ z, index_row r z s) s (row_zip r)) s chunk).
Proof.
  unfold process_chunk. revert s.
  induction chunk as [|r chunk IH]; intros s; simpl; [done|].
  by rewrite (bind_ok _ _ _ _ _ (process_row_run _ _)), IH.
Qed.

(** A property kept by every indexed row is kept by [process_chunk]. *)
Lemma process_chunk_preserves (P : session_state → Prop) chunk s :
  (∀ r z s, P s → P (index_row r z s)) → P s → P (process_chunk chunk s).2.
Proof.
  intros Hrow. rewrite process_chunk_run; simpl. revert s.
  induction chunk as [|r chunk IH]; intros s Hs; simpl; [done|].
  apply IH. destruct (row_zip r); simpl; auto.
Qed.

(** ** Properties of the index alone *)

Lemma same_index_refl s : same_index s s.
Proof. by repeat split. Qed.

Lemma same_index_trans s1 s2 s3 :
  same_index s1 s2 → same_index s2 s3 → same_index s1 s3.
Proof. unfold same_index. intros (-> & -> & ->) (-> & -> & ->). done. Qed.

Lemma consistent_same_index s s' : same_index s s' → consistent s → consistent s'.
Proof. unfold consistent. by intros (-> & -> & _). Qed.

Lemma index_ok_same_index s s' : same_index s s' → index_ok s → index_ok s'.
Proof.
  intros (Hc & Hz & Hi) [Hk Hcons Hinfo [He1 He2]].
  split; unfold consistent, info_complete, no_empty_sets; rewrite ?Hc, ?Hz, ?Hi; done.
Qed.

Lemma index_ok_empty s :
  contract_zip_map s = [] → zip_contract_map s = [] → contract_info s = [] →
  index_ok s.
Proof.
  intros Hc Hz Hi.
  split; unfold consistent, info_complete, no_empty_sets, members;
    rewrite ?Hc, ?Hz, ?Hi; simpl.
  - constructor.
  - done.
  - by intros c ?%elem_of_nil.
  - done.
Qed.

Lemma consistent_empty s :
  contract_zip_map s = [] → zip_contract_map s = [] → consistent s.
Proof. unfold consistent, members. by intros -> ->. Qed.

(** ** [load_main_file] *)

Section load_preserves.
Variable P : session_state → Prop.
Hypothesis P_index : ∀ s s', same_index s s' → P s → P s'.
Hypothesis P_row : ∀ r z s, P s → P (index_row r z s).

Lemma load_chunks_preserves main_df filter_active total_rows active_rows chunk_count s :
  P s →
  P (load_chunks main_df filter_active total_rows active_rows chunk_count s).2.
Proof.
  revert total_rows active_rows chunk_count s.
  induction main_df as [|[chunk|] main_df IH]; intros t a n s Hs; simpl; [done| |done].
  rewrite bind_run.
  destruct (dropna _) as [|r rows] eqn:Hrows; simpl; [by apply IH|].
  rewrite bind_run.
  pose proof (process_chunk_preserves P (r :: rows) s P_row Hs) as Hchunk.
  rewrite process_chunk_run in *; simpl in Hchunk |- *.
  case_bool_decide; simpl; apply IH; [|done].
  eapply P_index; [|done]. by repeat split.
Qed.

Hypothesis P_empty : ∀ s,
  contract_zip_map s = [] → zip_contract_map s = [] → contract_info s = [] → P s.

Lemma load_main_file_preserves main_file filter_active s :
  P (load_main_file main_file filter_active s).2.
Proof.
  unfold load_main_file, try_except. repeat (rewrite bind_run; simpl).
  match goal with
  | |- context [load_chunks _ _ _ _ _ ?s0] =>
      pose proof (load_chunks_preserves main_file filter_active 0 0 0 s0
                    ltac:(by apply P_empty)) as Hload;
      destruct (load_chunks main_file filter_active 0 0 0 s0) as [[[t a]|e] s1]
  end; simpl in *; (eapply P_index; [|done]); by repeat split.
Qed.
End load_preserves.

Lemma load_main_file_ok main_file filter_active s :
  index_ok (load_main_file main_file filter_active s).2.
Proof.
  apply load_main_file_preserves.
  - apply index_ok_same_index.
  - apply index_row_ok.
  - apply index_ok_empty.
Qed.

Lemma bind_singleton_fmap {A B} (f : A → B) (l : list A) :
  (x ← l; [f x]) = f <$> l.
Proof. induction l as [|x l IH]; csimpl; [done|]. by rewrite IH. Qed.

(** ** Reading a consistent index leaves it as it is *)

Lemma zip_contract_map_getitem_run z s :
  z ∈ dict_keys (zip_contract_map s) →
  zip_contract_map_getitem z s = (Ok (members (zip_contract_map s) z), s).
Proof.
  intros [C HC]%elem_of_dict_keys.
  unfold zip_contract_map_getitem, members. by rewrite HC.
Qed.

Lemma contract_zip_map_getitem_run c s :
  c ∈ dict_keys (contract_zip_map s) →
  contract_zip_map_getitem c s = (Ok (members (contract_zip_map s) c), s).
Proof.
  intros [Z HZ]%elem_of_dict_keys.
  unfold contract_zip_map_getitem, members. by rewrite HZ.
Qed.

Lemma contract_info_getitem_run c s :
  c ∈ dict_keys (contract_info s) →
  contract_info_getitem c s = (Ok (info_of s c), s).
Proof.
  intros [i Hi]%elem_of_dict_keys.
  unfold contract_info_getitem, info_of. by rewrite Hi.
Qed.

Lemma members_elem_of_keys d k x : x ∈ members d k → k ∈ dict_keys d.
Proof.
  intros (v & Hv & _)%elem_of_members. apply elem_of_dict_keys. by eauto.
Qed.

Lemma index_ok_item s c Z :
  index_ok s → (c, Z) ∈ contract_zip_map s →
  members (contract_zip_map s) c = Z ∧
  c ∈ dict_keys (contract_zip_map s) ∧
  c ∈ dict_keys (contract_info s) ∧
  ∀ z, z ∈ Z → z ∈ dict_keys (zip_contract_map s).
Proof.
  intros [Hk Hcons Hinfo _] Hin.
  pose proof (elem_of_dict_get _ _ _ Hk Hin) as Hget.
  assert (c ∈ dict_keys (contract_zip_map s)) as Hc.
  { apply elem_of_dict_keys. by eauto. }
  split_and!; [by apply members_get|done| |].
  - destruct (Hinfo c Hc) as (i & Hi & _). apply elem_of_dict_keys. by eauto.
  - intros z Hz. apply (members_elem_of_keys _ _ c), Hcons.
    by rewrite (members_get _ _ _ Hget).
Qed.

Lemma index_ok_zip s z c :
  index_ok s → c ∈ members (zip_contract_map s) z →
  c ∈ dict_keys (contract_zip_map s) ∧ c ∈ dict_keys (contract_info s).
Proof.
  intros [Hk Hcons Hinfo _] Hc%Hcons.
  apply members_elem_of_keys in Hc as Hkey. split; [done|].
  destruct (Hinfo c Hkey) as (i & Hi & _). apply elem_of_dict_keys. by eauto.
Qed.

(** ** The overlap count *)

Lemma count_overlaps_run c zs n acc s :
  (∀ z, z ∈ zs → z ∈ dict_keys (zip_contract_map s)) →
  count_overlaps c zs n acc s =
    (Ok (n + sum_list ((λ z, size (members (zip_contract_map s) z ∖ {[c]})) <$> zs),
         acc ∪ ⋃ ((λ z, members (zip_contract_map s) z ∖ {[c]}) <$> zs)), s).
Proof.
  revert n acc. induction zs as [|z zs IH]; intros n acc Hzs; simpl.
  - by rewrite Nat.add_0_r, (right_id_L ∅ (∪)).
  - rewrite (bind_ok _ _ _ _ _ (zip_contract_map_getitem_run z s ltac:(apply Hzs; left))).
    rewrite IH by (intros; apply Hzs; by right).
    by rewrite Nat.add_assoc, (assoc_L (∪)).
Qed.

Lemma summary_entry_run s item :
  index_ok s → item ∈ contract_zip_map s →
  summary_entry item s = (Ok [summary_of s item], s).
Proof.
  destruct item as [c Z]. intros Hs Hin.
  destruct (index_ok_item s c Z Hs Hin) as (_ & _ & Hinfo & Hzips).
  unfold summary_entry.
  rewrite (bind_ok _ _ _ _ _ (contract_info_getitem_run c s Hinfo)).
  rewrite (bind_ok _ _ _ _ _ (count_overlaps_run c (elements Z) 0 ∅ s
             ltac:(intros z ?%elem_of_elements; by apply Hzips))).
  by rewrite (left_id_L ∅ (∪)).
Qed.

Lemma summary_data_run s :
  index_ok s →
  for_collect (contract_zip_map s) summary_entry s = (Ok (summary_data s), s).
Proof.
  intros Hs. rewrite (for_collect_pure _ _ (λ item, [summary_of s item])).
  - by rewrite bind_singleton_fmap.
  - intros item Hin. by apply summary_entry_run.
Qed.

(** ** The detail rows *)

Lemma insert_sorted_Permutation x l : Py.insert_sorted x l ≡ₚ x :: l.
Proof.
  induction l as [|y l IH]; simpl; [done|].
  destruct (String.leb x y); [done|]. by rewrite IH, Permutation_swap.
Qed.

Lemma sorted_Permutation l : Py.sorted l ≡ₚ l.
Proof.
  unfold Py.sorted. induction l as [|x l IH]; simpl; [done|].
  by rewrite insert_sorted_Permutation, IH.
Qed.

Lemma detail_entry_run s c z :
  z ∈ dict_keys (zip_contract_map s) →
  detail_entry c (info_of s c) z s = (Ok [detail_of s c z], s).
Proof.
  intros Hz. unfold detail_entry.
  by rewrite (bind_ok _ _ _ _ _ (zip_contract_map_getitem_run z s Hz)).
Qed.

Lemma detail_entries_run s item :
  index_ok s → item ∈ contract_zip_map s →
  detail_entries item s =
    (Ok (detail_of s item.1 <$> Py.sorted (elements item.2)), s).
Proof.
  destruct item as [c Z]. intros Hs Hin.
  destruct (index_ok_item s c Z Hs Hin) as (_ & _ & Hinfo & Hzips).
  unfold detail_entries.
  rewrite (bind_ok _ _ _ _ _ (contract_info_getitem_run c s Hinfo)).
  rewrite (for_collect_pure _ _ (λ z, [detail_of s c z])).
  - by rewrite bind_singleton_fmap.
  - intros z Hz. apply detail_entry_run, Hzips.
    rewrite sorted_Permutation in Hz. by apply elem_of_elements.
Qed.

Lemma detailed_data_run s :
  index_ok s →
  for_collect (contract_zip_map s) detail_entries s = (Ok (detailed_data s), s).
Proof.
  intros Hs. rewrite (for_collect_pure _ _
    (λ item, detail_of s item.1 <$> Py.sorted (elements item.2))); [done|].
  intros item Hin. by apply detail_entries_run.
Qed.

(** ** [analyze_main_data] *)

#[local] Arguments active_counts : simpl never.
#[local] Arguments active_match_counts : simpl never.
#[local] Arguments count_matches : simpl never.
#[local] Arguments count_contracts : simpl never.
#[local] Arguments contracts_with_matches : simpl never.
#[local] Arguments summary_data : simpl never.
#[local] Arguments detailed_data : simpl never.
#[local] Arguments batch_files : simpl never.
#[local] Arguments Py.range : simpl never.
#[local] Arguments normalize_zips : simpl never.

Lemma set_logs_nil s : set_logs (logs s ++ []) s = s.
Proof. destruct s; unfold set_logs; simpl. by rewrite app_nil_r. Qed.

Lemma log_top_run i rows s :
  ∃ msgs, log_top i rows s = (Ok tt, set_logs (logs s ++ msgs) s) ∧
          ∀ text, Text text ∉ msgs.
Proof.
  revert i s. induction rows as [|[c n] rows IH]; intros i s; simpl.
  - exists []. rewrite set_logs_nil. split; [done|]. by intros text ?%elem_of_nil.
  - rewrite bind_run; simpl.
    destruct (IH (S i) (set_logs (logs s ++ [TopContract (i + 1) c n]) s))
      as (msgs & -> & Hmsgs).
    exists (TopContract (i + 1) c n :: msgs). simpl.
    rewrite <- app_assoc. split; [done|].
    intros text [?|?]%elem_of_cons; [done|by eapply Hmsgs].
Qed.

Lemma export_batches_run detailed_df contracts starts batch_num s :
  ∃ r s',
    export_batches detailed_df contracts starts batch_num s = (Ok r, s') ∧
    (starts = [] → r = batch_num) ∧
    (starts ≠ [] → is_Some r) ∧
    same_index s s' ∧
    excel_writes s' = excel_writes s ++ batch_files detailed_df contracts starts.
Proof.
  revert batch_num s. induction starts as [|i starts IH]; intros bn s; simpl.
  - exists bn, s. split_and!; [done..|apply same_index_refl|by rewrite app_nil_r].
  - repeat (rewrite bind_run; simpl).
    match goal with
    | |- context [export_batches _ _ _ ?bn1 ?s1] =>
        destruct (IH bn1 s1) as (r & s' & -> & Hnil & Hcons & Hidx & Hw)
    end.
    exists r, s'. split_and!; [done|done| | |].
    + intros _. destruct starts; [rewrite Hnil; by eauto|by apply Hcons].
    + eapply same_index_trans; [|done]. by repeat split.
    + rewrite Hw; simpl. by rewrite <- app_assoc.
Qed.

Lemma summary_data_same_index s s' :
  same_index s s' → summary_data s' = summary_data s.
Proof.
  intros (Hc & Hz & Hi). unfold summary_data, summary_of, overlap_count,
    overlapping_contracts, info_of. by rewrite Hc, Hz, Hi.
Qed.

Lemma detailed_data_same_index s s' :
  same_index s s' → detailed_data s' = detailed_data s.
Proof.
  intros (Hc & Hz & Hi). unfold detailed_data, detail_of, info_of.
  by rewrite Hc, Hz, Hi.
Qed.

(** The workbooks [analyze_main_data] writes, in order, when the index is
    not empty. *)
Lemma analyze_main_data_run sort_values s :
  index_ok s → contract_zip_map s ≠ [] →
  let s' := (analyze_main_data sort_values s).2 in
  let summary_df := sort_values _ Total_ZIP_Codes (summary_data s) in
  let contracts := contracts_with_matches summary_df in
  same_index s s' ∧
  ∃ active_counts_df match_counts_df,
    excel_writes s' =
      excel_writes s ++
      [ (contract_summary_xlsx,
         [("Contract Summary", SummaryTable summary_df);
          ("Active Counts", active_counts_df)]);
        (detailed_contract_zip_matches_xlsx,
         [("Detailed Matches", DetailedTable (detailed_data s));
          ("Contract Match Counts", MatchCountsTable match_counts_df);
          ("Active Counts", active_counts_df)]) ] ++
      batch_files (detailed_data s) contracts
        (Py.range 0 (length contracts) batch_size) ∧
    match_counts_df = sort_values _ snd (dict_items (count_matches (detailed_data s))).
Proof.
  intros Hs Hne. unfold analyze_main_data, try_except, dict_items.
  repeat (rewrite bind_run; simpl).
  match goal with
  | |- context [for_collect _ summary_entry ?s1] =>
      assert (same_index s s1) as H1 by (by repeat split);
      pose proof (summary_data_run s1 (index_ok_same_index _ _ H1 Hs)) as Hrun;
      simpl in Hrun; rewrite Hrun, (summary_data_same_index _ _ H1); clear Hrun H1
  end.
  destruct (summary_data s) as [|row0 rows] eqn:Hsum.
  { unfold summary_data in Hsum. by apply fmap_nil_inv in Hsum. }
  rewrite bind_run; simpl. rewrite <- Hsum. clear Hsum row0 rows.
  repeat (rewrite bind_run; simpl).
  match goal with
  | |- context [for_collect _ detail_entries ?s1] =>
      assert (same_index s s1) as H1 by (by repeat split);
      pose proof (detailed_data_run s1 (index_ok_same_index _ _ H1 Hs)) as Hrun;
      simpl in Hrun; rewrite Hrun, (detailed_data_same_index _ _ H1); clear Hrun H1
  end.
  repeat (rewrite bind_run; simpl).
  match goal with
  | |- context [log_top ?i ?rows ?s1] =>
      destruct (log_top_run i rows s1) as (msgs & -> & _)
  end.
  repeat (rewrite bind_run; simpl).
  match goal with
  | |- context [export_batches ?d ?c ?st ?bn ?s1] =>
      destruct (export_batches_run d c st bn s1) as (r & s2 & -> & _ & _ & Hidx & Hw)
  end.
  unfold same_index in *; simpl in Hw, Hidx.
  destruct r as [batch_num|]; repeat (rewrite bind_run; simpl);
    (split; [done|]; eexists _, _; split; [|done];
     rewrite <- !app_assoc in Hw; exact Hw).
Qed.


Lemma analyze_main_data_same_index sort_values s :
  index_ok s → same_index s (analyze_main_data sort_values s).2.
Proof.
  intros Hs. destruct (contract_zip_map s) as [|item items] eqn:Hczm.
  - unfold analyze_main_data, try_except, dict_items.
    repeat (rewrite bind_run; simpl). rewrite Hczm; simpl.
    by repeat split.
  - apply analyze_main_data_run; [done|]. by rewrite Hczm.
Qed.

(** ** [analyze_new_zips] *)

Lemma match_entry_run s z c :
  index_ok s → c ∈ members (zip_contract_map s) z →
  match_entry z c s = (Ok [match_of s z c], s).
Proof.
  intros Hs Hc. destruct (index_ok_zip s z c Hs Hc) as [Hkey Hinfo].
  unfold match_entry.
  rewrite (bind_ok _ _ _ _ _ (contract_info_getitem_run c s Hinfo)).
  by rewrite (bind_ok _ _ _ _ _ (contract_zip_map_getitem_run c s Hkey)).
Qed.

Lemma match_zip_run s z :
  index_ok s →
  match_zip z s =
    (Ok (if dict_in z (zip_contract_map s)
         then match_of s z <$> elements (members (zip_contract_map s) z)
         else []), s).
Proof.
  intros Hs. unfold match_zip, gets. rewrite bind_run.
  destruct (dict_in z (zip_contract_map s)) eqn:Hz; [|done].
  apply dict_in_true in Hz.
  rewrite (bind_ok _ _ _ _ _ (zip_contract_map_getitem_run z s Hz)).
  rewrite (for_collect_pure _ _ (λ c, [match_of s z c])).
  - by rewrite bind_singleton_fmap.
  - intros c Hc%elem_of_elements. by apply match_entry_run.
Qed.

Lemma match_results_run s new_zips :
  index_ok s →
  for_collect new_zips match_zip s = (Ok (match_results_of s new_zips), s).
Proof.
  intros Hs. unfold match_results_of.
  apply (for_collect_pure _ _
    (λ z, if dict_in z (zip_contract_map s)
          then match_of s z <$> elements (members (zip_contract_map s) z)
          else [])).
  intros z _. by apply match_zip_run.
Qed.

Lemma match_results_same_index s s' new_zips :
  same_index s s' → match_results_of s' new_zips = match_results_of s new_zips.
Proof.
  intros (Hc & Hz & Hi). unfold match_results_of, match_of, info_of.
  by rewrite Hc, Hz, Hi.
Qed.

(** What a call of [analyze_new_zips] does, by the three ways it can go. *)
Lemma analyze_new_zips_run sort_values new_zip_file s :
  index_ok s →
  let s' := (analyze_new_zips sort_values new_zip_file s).2 in
  same_index s s' ∧
  match new_zip_file ≫= zip_column with
  | None =>
      excel_writes s' = excel_writes s ∧ output_files s' = output_files s ∧
      ∃ e, logs s' = logs s ++ [Text "Loading new ZIP codes file..."; ErrorNewZips e]
  | Some column =>
      let match_results := match_results_of s (normalize_zips column) in
      match match_results with
      | [] =>
          excel_writes s' = excel_writes s ∧ output_files s' = output_files s ∧
          logs s' = logs s ++
            [ Text "Loading new ZIP codes file...";
              FoundNewZips (length column);
              Text "Matching new ZIP codes against active contracts...";
              Text "No matches found for the new ZIP codes." ]
      | _ =>
          (∃ counts active,
             excel_writes s' = excel_writes s ++
               [(new_zip_matches_xlsx,
                 [("ZIP Matches", ZipMatchesTable match_results);
                  ("Contract Match Counts", counts);
                  ("Active Counts", active)])]) ∧
          output_files s' =
            dict_set (output_files s) new_zip_matches_xlsx new_zip_matches_xlsx ∧
          ∃ msgs, logs s' = logs s ++ msgs ∧
                  Text "No matches found for the new ZIP codes." ∉ msgs
      end
  end.
Proof.
  intros Hs. unfold analyze_new_zips, try_except, zip_column.
  destruct new_zip_file as [df|]; simpl; repeat (rewrite bind_run; simpl);
    [|split_and!; [by repeat split|done|done|eexists; by rewrite <- app_assoc]].
  destruct (find_zip_col _) as [zip_col|]; simpl; repeat (rewrite bind_run; simpl);
    [|split_and!; [by repeat split|done|done|eexists; by rewrite <- app_assoc]].
  match goal with
  | |- context [for_collect ?nz match_zip ?s1] =>
      assert (same_index s s1) as H1 by (by repeat split);
      rewrite (match_results_run s1 nz (index_ok_same_index _ _ H1 Hs)),
        (match_results_same_index _ _ nz H1); clear H1
  end.
  destruct (match_results_of s _) as [|row0 rows] eqn:Hrows; simpl.
  - rewrite <- !app_assoc. by repeat split.
  - repeat (rewrite bind_run; simpl).
    match goal with
    | |- context [log_top ?i ?rows ?s1] =>
        destruct (log_top_run i rows s1) as (msgs & -> & Hmsgs)
    end.
    simpl. split_and!; [by repeat split|by eauto|done|].
    eexists. rewrite <- !app_assoc. split; [done|]. simpl.
    rewrite !not_elem_of_cons. split_and!; first [done|by apply Hmsgs].
Qed.

Lemma analyze_new_zips_same_index sort_values new_zip_file s :
  index_ok s → same_index s (analyze_new_zips sort_values new_zip_file s).2.
Proof. intros Hs. by apply analyze_new_zips_run. Qed.

(** ** Every state of a session has a consistent index *)

Lemma reachable_index_ok s : reachable s → index_ok s.
Proof.
  induction 1 as [|s chunk _ IH|s main_file filter_active _ _|s sort_values _ IH
                 |s sort_values new_zip_file _ IH].
  - by apply index_ok_empty.
  - apply process_chunk_preserves; [apply index_row_ok|done].
  - apply load_main_file_ok.
  - eapply index_ok_same_index; [|done]. by apply analyze_main_data_same_index.
  - eapply index_ok_same_index; [|done]. by apply analyze_new_zips_same_index.
Qed.

(** ** The two sorts meet the contract of [sort_values] *)

Lemma insert_desc_Permutation {A} (key : A → nat) b x l :
  insert_desc key b x l ≡ₚ x :: l.
Proof.
  induction l as [|y l IH]; simpl; [done|].
  destruct (if b then _ else _); [done|]. by rewrite IH, Permutation_swap.
Qed.

Lemma insert_desc_sorted {A} (key : A → nat) b x l :
  StronglySorted (λ x y, (key y ≤ key x)%nat) l →
  StronglySorted (λ x y, (key y ≤ key x)%nat) (insert_desc key b x l).
Proof.
  induction 1 as [|y l Hl IH Hy]; simpl.
  - repeat constructor.
  - destruct (if b then _ else _) eqn:Hcmp.
    + constructor; [by constructor|].
      assert (key y ≤ key x)%nat as Hyx.
      { destruct b; [by apply Nat.leb_le|apply Nat.ltb_lt in Hcmp; lia]. }
      constructor; [done|]. eapply Forall_impl; [done|]. simpl; intros; lia.
    + constructor; [done|]. rewrite insert_desc_Permutation.
      constructor; [|done].
      destruct b; [apply Nat.leb_gt in Hcmp|apply Nat.ltb_ge in Hcmp]; lia.
Qed.

Lemma insertion_sort_contract b :
  sort_contract (λ A key l, foldr (insert_desc key b) [] l).
Proof.
  intros A key l. induction l as [|x l [IHp IHs]]; simpl.
  - split; [done|constructor].
  - split; [by rewrite insert_desc_Permutation, IHp|by apply insert_desc_sorted].
Qed.

Lemma insert_desc_before_equal_filter {A} (key : A → nat) k x l :
  List.filter (λ y, key y =? k) (insert_desc key true x l) =
  List.filter (λ y, key y =? k) (x :: l).
Proof.
  induction l as [|y l IH]; [done|]. cbn [insert_desc].
  destruct (Nat.leb_spec (key y) (key x)) as [Hle|Hgt]; [done|].
  cbn [List.filter] in *. rewrite IH.
  destruct (Nat.eqb_spec (key x) k), (Nat.eqb_spec (key y) k); (done || lia).
Qed.

(** [sort_values_stable] leaves rows of equal key in the order they had. *)
Lemma sort_values_stable_keeps_ties A (key : A → nat) l :
  keeps_ties A key l (sort_values_stable A key l).
Proof.
  intros k. unfold sort_values_stable. induction l as [|x l IH]; [done|].
  cbn [foldr]. rewrite insert_desc_before_equal_filter.
  cbn [List.filter]. by rewrite IH.
Qed.

Lemma sort_values_stable_contract : sort_contract sort_values_stable.
Proof. apply (insertion_sort_contract true). Qed.

Lemma sort_values_reversing_contract : sort_contract sort_values_reversing.
Proof. apply (insertion_sort_contract false). Qed.

(** ** Batches *)



Section batches.
Context {A : Type}.
Implicit Types l : list A.


End batches.




(** ** Lists *)

Lemma List_filter_Permutation {A} (f : A → bool) (l l' : list A) :
  l ≡ₚ l' → List.filter f l ≡ₚ List.filter f l'.
Proof.
  induction 1 as [|x l l' _ IH|x y l|l1 l2 l3 _ IH1 _ IH2]; simpl.
  - done.
  - destruct (f x); by rewrite IH.
  - destruct (f x), (f y); try done. apply Permutation_swap.
  - by etrans.
Qed.

Lemma elem_of_List_filter {A} (f : A → bool) (l : list A) x :
  x ∈ List.filter f l ↔ x ∈ l ∧ f x = true.
Proof. rewrite !list_elem_of_In. apply filter_In. Qed.

Lemma dict_get_app {K V} `{EqDecision K} (d1 d2 : dict K V) k :
  dict_get (d1 ++ d2) k =
    match dict_get d1 k with Some v => Some v | None => dict_get d2 k end.
Proof.
  induction d1 as [|[k0 v0] d1 IH]; simpl; [done|]. by case_decide.
Qed.

Lemma dict_get_None {K V} `{EqDecision K} (d : dict K V) k :
  k ∉ dict_keys d → dict_get d k = None.
Proof.
  rewrite elem_of_dict_keys. destruct (dict_get d k); [|done].
  intros []. by eauto.
Qed.

(** ** The sheets [analyze_main_data] leaves *)

Lemma batch_files_keys detailed_df contracts starts file :
  file ∈ dict_keys (reverse (batch_files detailed_df contracts starts)) →
  is_batch_file file = true.
Proof.
  unfold dict_keys, batch_files.
  rewrite <- fmap_reverse, <- list_fmap_compose.
  by intros (i & -> & _)%list_elem_of_fmap.
Qed.

Lemma analyze_main_data_written sort_values s :
  index_ok s → contract_zip_map s ≠ [] →
  written_sheet (analyze_main_data sort_values s).2
      contract_summary_xlsx "Contract Summary" =
    Some (SummaryTable (sort_values _ Total_ZIP_Codes (summary_data s))) ∧
  written_sheet (analyze_main_data sort_values s).2
      detailed_contract_zip_matches_xlsx "Contract Match Counts" =
    Some (MatchCountsTable
            (sort_values _ snd (dict_items (count_matches (detailed_data s))))).
Proof.
  intros Hs Hne.
  destruct (analyze_main_data_run sort_values s Hs Hne)
    as (_ & active & counts & Hw & ->).
  unfold written_sheet. rewrite Hw, !reverse_app.
  rewrite <- app_assoc, !dict_get_app.
  split; (rewrite dict_get_None; [done|by intros ?%batch_files_keys]).
Qed.

(** * The claims *)

Lemma scenario_A_reachable : reachable scenario_A.
Proof. apply reachable_chunk, reachable_init. Qed.

Lemma separator_state_reachable : reachable separator_state.
Proof. apply reachable_chunk, reachable_init. Qed.

Lemma init_state_consistent : consistent init_state.
Proof. by apply consistent_empty. Qed.

(** C1. Bidirectional consistency: whatever the state before and whatever
    the file, after [load_main_file] a contract [c] is in
    [zip_contract_map[z]] exactly when [z] is in [contract_zip_map[c]]; and
    [process_chunk] keeps this, so it holds after every chunk of a load. *)
Theorem C1_bidirectional_consistency s chunk main_file filter_active :
  (∀ c z, c ∈ members (zip_contract_map (load_main_file main_file filter_active s).2) z ↔
          z ∈ members (contract_zip_map (load_main_file main_file filter_active s).2) c) ∧
  (consistent s → consistent (process_chunk chunk s).2).
Proof.
  split.
  - apply (load_main_file_preserves consistent).
    + apply consistent_same_index.
    + apply index_row_consistent.
    + intros s0 Hc Hz _. by apply consistent_empty.
  - intros Hs. apply process_chunk_preserves; [apply index_row_consistent|done].
Qed.

Lemma C1_witness :
  (∀ c z, c ∈ members (zip_contract_map (load_main_file scenario_A_file true init_state).2) z ↔
          z ∈ members (contract_zip_map (load_main_file scenario_A_file true init_state).2) c) ∧
  consistent (process_chunk scenario_A_rows init_state).2.
Proof.
  destruct (C1_bidirectional_consistency init_state scenario_A_rows scenario_A_file true)
    as [Hload Hchunk].
  split; [exact Hload|]. apply Hchunk. exact init_state_consistent.
Defined.





(** C9. A call of [analyze_new_zips] on a state of a session leaves
    [contract_zip_map], [zip_contract_map] and [contract_info] as they
    were: its lookups in the two [defaultdict]s find their keys, so none of
    them inserts an empty set. *)
Theorem C9_analyze_new_zips_frame sort_values new_zip_file s :
  reachable s →
  contract_zip_map (analyze_new_zips sort_values new_zip_file s).2 = contract_zip_map s ∧
  zip_contract_map (analyze_new_zips sort_values new_zip_file s).2 = zip_contract_map s ∧
  contract_info (analyze_new_zips sort_values new_zip_file s).2 = contract_info s.
Proof.
  intros Hs%reachable_index_ok.
  apply (analyze_new_zips_same_index sort_values new_zip_file s Hs).
Qed.

Lemma C9_witness :
  contract_zip_map (analyze_new_zips sort_values_stable scenario_B_file scenario_A).2
    = contract_zip_map scenario_A ∧
  zip_contract_map (analyze_new_zips sort_values_stable scenario_B_file scenario_A).2
    = zip_contract_map scenario_A ∧
  contract_info (analyze_new_zips sort_values_stable scenario_B_file scenario_A).2
    = contract_info scenario_A.
Proof.
  apply (C9_analyze_new_zips_frame sort_values_stable scenario_B_file scenario_A).
  exact scenario_A_reachable.
Defined.

(** C10. In every state of a session, so after any sequence of
    [process_chunk] calls, each key of [contract_zip_map] is a key of
    [contract_info], whose [zip_states] has an entry for each ZIP of the
    contract; the same holds for the contracts found in the sets of
    [zip_contract_map]. So the lookups [contract_info[contract]] made by
    [analyze_main_data] and [analyze_new_zips] return, and so do the loop
    bodies that make them. *)
Theorem C10_contract_info_lookups_succeed s :
  reachable s →
  (∀ c, c ∈ dict_keys (contract_zip_map s) →
     ∃ i, contract_info_getitem c s = (Ok i, s) ∧
          ∀ z, z ∈ members (contract_zip_map s) c → is_Some (dict_get (zip_states i) z)) ∧
  (∀ z c, c ∈ members (zip_contract_map s) z →
     ∃ i, contract_info_getitem c s = (Ok i, s)) ∧
  (∀ item, item ∈ dict_items (contract_zip_map s) →
     (∃ rows, summary_entry item s = (Ok rows, s)) ∧
     (∃ rows, detail_entries item s = (Ok rows, s))) ∧
  (∀ z c, c ∈ members (zip_contract_map s) z →
     ∃ rows, match_entry z c s = (Ok rows, s)).
Proof.
  intros Hs%reachable_index_ok. split_and!.
  - intros c Hc. destruct (ok_info s Hs c Hc) as (i & Hi & Hstates).
    exists i. split; [|done]. unfold contract_info_getitem. by rewrite Hi.
  - intros z c Hc. destruct (index_ok_zip s z c Hs Hc) as [_ Hinfo].
    eexists. by apply contract_info_getitem_run.
  - intros item Hitem. split; eexists.
    + by apply summary_entry_run.
    + by apply detail_entries_run.
  - intros z c Hc. eexists. by apply match_entry_run.
Qed.

Lemma C10_witness :
  ∃ rows, match_entry "ZIP1" "C2" scenario_A = (Ok rows, scenario_A).
Proof.
  apply (C10_contract_info_lookups_succeed scenario_A scenario_A_reachable).
  by vm_compute.
Defined.



(** ** Contracts with overlap *)

Lemma overlap_zero_iff s c Z :
  size (overlapping_contracts s c Z) = 0 ↔ overlap_count s c Z = 0.
Proof.
  unfold overlapping_contracts, overlap_count.
  induction (elements Z) as [|z zs IH]; csimpl; [done|].
  rewrite Nat.eq_add_0, <- IH, !size_empty_iff.
  set_solver.
Qed.






(** ** The deduplicated query *)

Lemma unique_go_spec {A} `{EqDecision A} (seen l : list A) :
  NoDup (Py.unique_go seen l) ∧
  ∀ x, x ∈ Py.unique_go seen l ↔ x ∈ l ∧ x ∉ seen.
Proof.
  revert seen. induction l as [|y l IH]; intros seen; simpl.
  - split; [constructor|]. intros x. rewrite elem_of_nil. tauto.
  - destruct (decide (y ∈ seen)) as [Hy|Hy].
    + destruct (IH seen) as [Hnd Hin]. split; [done|].
      intros x. rewrite Hin, elem_of_cons. naive_solver.
    + destruct (IH (y :: seen)) as [Hnd Hin]. split.
      * apply NoDup_cons. split; [|done]. rewrite Hin, elem_of_cons. tauto.
      * intros x. rewrite !elem_of_cons, Hin, elem_of_cons.
        destruct (decide (x = y)) as [->|]; naive_solver.
Qed.

Lemma unique_spec {A} `{EqDecision A} (l : list A) :
  NoDup (Py.unique l) ∧ ∀ x, x ∈ Py.unique l ↔ x ∈ l.
Proof.
  destruct (unique_go_spec [] l) as [Hnd Hin]. split; [done|].
  intros x. unfold Py.unique. rewrite Hin, elem_of_nil. tauto.
Qed.

Lemma normalize_zips_spec column :
  NoDup (normalize_zips column) ∧
  ∀ z, z ∈ normalize_zips column ↔ ∃ v, v ∈ column ∧ z = Py.strip (str v).
Proof.
  unfold normalize_zips.
  destruct (unique_spec ((λ v, Py.strip (str v)) <$> column)) as [Hnd Hin].
  split; [done|]. intros z. rewrite Hin, list_elem_of_fmap. naive_solver.
Qed.

(** ** The match rows *)

Lemma fmap_list_bind {A B C} (f : B → C) (g : A → list B) (l : list A) :
  f <$> (l ≫= g) = l ≫= (λ x, f <$> g x).
Proof. induction l as [|x l IH]; csimpl; [done|]. by rewrite fmap_app, IH. Qed.

Lemma dict_in_false_members z (d : dict string (gset string)) :
  dict_in z d = false → members d z = ∅.
Proof. unfold dict_in, members. by destruct (dict_get d z). Qed.

Lemma elem_of_match_results s new_zips r :
  r ∈ match_results_of s new_zips ↔
  ∃ z c, z ∈ new_zips ∧ c ∈ members (zip_contract_map s) z ∧ r = match_of s z c.
Proof.
  unfold match_results_of. rewrite list_elem_of_bind. split.
  - intros (z & Hr & Hz). exists z.
    destruct (dict_in z (zip_contract_map s)); [|by apply elem_of_nil in Hr].
    apply list_elem_of_fmap in Hr as (c & -> & Hc%elem_of_elements). by eauto.
  - intros (z & c & Hz & Hc & ->). exists z. split; [|done].
    destruct (dict_in z (zip_contract_map s)) eqn:Hin.
    + apply list_elem_of_fmap. exists c. by rewrite elem_of_elements.
    + rewrite (dict_in_false_members _ _ Hin) in Hc. set_solver.
Qed.


Lemma match_results_nil s new_zips :
  index_ok s →
  match_results_of s new_zips = [] ↔
  ∀ z, z ∈ new_zips → z ∉ dict_keys (zip_contract_map s).
Proof.
  intros Hs. split.
  - intros Hnil z Hz [C HC]%elem_of_dict_keys.
    destruct (ok_no_empty s Hs) as [_ Hne].
    destruct (set_choose_L C (Hne z C HC)) as [c Hc].
    assert (match_of s z c ∈ match_results_of s new_zips) as Hin.
    { apply elem_of_match_results. exists z, c. by rewrite (members_get _ _ _ HC). }
    rewrite Hnil in Hin. by apply elem_of_nil in Hin.
  - intros Hno. destruct (match_results_of s new_zips) as [|r rows] eqn:Hrows; [done|].
    assert (r ∈ match_results_of s new_zips) as Hin by (rewrite Hrows; left).
    apply elem_of_match_results in Hin as (z & c & Hz & Hc & _).
    destruct (Hno z Hz). by eapply members_elem_of_keys.
Qed.







(** ** Splitting the MATCH column *)

Lemma append_cons a s t : String a s +:+ t = String a (s +:+ t).
Proof. reflexivity. Qed.

Lemma append_nil_r s : s +:+ EmptyString = s.
Proof. induction s as [|a s IH]; [done|]. by rewrite append_cons, IH. Qed.

Lemma append_assoc s t u : (s +:+ t) +:+ u = s +:+ (t +:+ u).
Proof. induction s as [|a s IH]; [done|]. by rewrite !append_cons, IH. Qed.

Lemma prefix_nil s : String.prefix EmptyString s = true.
Proof. by destruct s. Qed.

Lemma prefix_cons a s b t :
  String.prefix (String a s) (String b t) =
    if ascii_dec a b then String.prefix s t else false.
Proof. reflexivity. Qed.

Lemma contains_cons sub a s :
  Py.contains sub (String a s) = false →
  String.prefix sub (String a s) = false ∧ Py.contains sub s = false.
Proof. simpl. by intros [? ?]%orb_false_elim. Qed.

(** A piece without separator that ends the string is read as one piece. *)
Lemma split_go_last x cur :
  Py.contains ", " x = false →
  Py.split_go ", " 0 cur x = [cur +:+ x].
Proof.
  revert cur. induction x as [|a x IH]; intros cur Hx.
  - simpl. by rewrite append_nil_r.
  - apply contains_cons in Hx as [Hpre Hx].
    cbn [Py.split_go]. rewrite Hpre, IH by done.
    by rewrite append_assoc.
Qed.

(** A piece without separator is read up to the separator that follows. *)
Lemma split_go_piece x cur t :
  Py.contains ", " x = false →
  Py.split_go ", " 0 cur (x +:+ ", " +:+ t) = (cur +:+ x) :: Py.split_go ", " 0 EmptyString t.
Proof.
  revert cur. induction x as [|a x IH]; intros cur Hx.
  - rewrite append_nil_r.
    change (EmptyString +:+ ", " +:+ t) with (String "," (String " " t)).
    cbn [Py.split_go]. simpl String.prefix. by rewrite prefix_nil.
  - apply contains_cons in Hx as [Hpre Hx].
    rewrite append_cons. cbn [Py.split_go].
    assert (String.prefix ", " (String a (x +:+ ", " +:+ t)) = false) as ->.
    { rewrite prefix_cons in Hpre |- *. destruct (ascii_dec "," a); [|done].
      destruct x as [|b x]; [reflexivity|].
      rewrite append_cons. rewrite prefix_cons in Hpre |- *.
      destruct (ascii_dec " " b); [|done]. by rewrite prefix_nil in *. }
    rewrite IH by done. by rewrite append_assoc.
Qed.

Lemma split_join names :
  names ≠ [] → Forall (λ x, Py.contains ", " x = false) names →
  Py.split ", " (Py.join ", " names) = names.
Proof.
  unfold Py.split. induction names as [|x [|y names] IH]; intros Hne Hnames; [done| |].
  - apply Forall_cons in Hnames as [Hx _]. simpl. by rewrite split_go_last.
  - apply Forall_cons in Hnames as [Hx Hnames].
    change (Py.join ", " (x :: y :: names))
      with (x +:+ ", " +:+ Py.join ", " (y :: names)).
    rewrite split_go_piece by done. by rewrite IH.
Qed.

Lemma join_nonempty x names :
  x ≠ EmptyString → Py.join ", " (x :: names) ≠ EmptyString.
Proof. destruct x; [done|]. by destruct names. Qed.

(** ** The match counts when no contract name holds the separator *)

Lemma counter_get_add counts k n c :
  counter_get (counter_add counts k n) c =
    if decide (c = k) then counter_get counts k + n else counter_get counts c.
Proof.
  unfold counter_get, counter_add. rewrite dict_get_set. by case_decide; subst.
Qed.

(** What a detail row adds to the count of [c]. *)
Lemma count_matches_get detailed_df c :
  counter_get (count_matches detailed_df) c =
    sum_list ((λ r, if decide (d_Contract_Name r = c)
                    then (if decide (MATCH r = EmptyString) then 0
                          else length (Py.split ", " (MATCH r)))
                    else 0) <$> detailed_df).
Proof.
  unfold count_matches.
  assert (∀ counts,
    counter_get (foldl (λ counts r,
         if decide (MATCH r = EmptyString) then counts
         else counter_add counts (d_Contract_Name r)
                (length (Py.split ", " (MATCH r)))) counts detailed_df) c =
    counter_get counts c +
    sum_list ((λ r, if decide (d_Contract_Name r = c)
                    then (if decide (MATCH r = EmptyString) then 0
                          else length (Py.split ", " (MATCH r)))
                    else 0) <$> detailed_df)) as Hgen.
  { induction detailed_df as [|r rows IH]; intros counts; csimpl; [lia|].
    rewrite IH. destruct (decide (MATCH r = EmptyString)).
    - case_decide; lia.
    - rewrite counter_get_add. repeat case_decide; subst; try done; lia. }
  by rewrite Hgen.
Qed.

Lemma sum_list_bind {A} (f : A → list nat) (l : list A) :
  sum_list (l ≫= f) = sum_list ((λ x, sum_list (f x)) <$> l).
Proof.
  induction l as [|x l IH]; csimpl; [done|]. by rewrite sum_list_with_app, IH.
Qed.

Lemma detail_of_count s c z :
  index_ok s →
  (∀ c', c' ∈ dict_keys (contract_zip_map s) →
     c' ≠ EmptyString ∧ Py.contains ", " c' = false) →
  (if decide (MATCH (detail_of s c z) = EmptyString) then 0
   else length (Py.split ", " (MATCH (detail_of s c z)))) =
  size (members (zip_contract_map s) z ∖ {[c]}).
Proof.
  intros Hs Hnames. simpl.
  destruct (decide (members (zip_contract_map s) z ∖ {[c]} = ∅)) as [->|Hne].
  { by rewrite decide_True. }
  assert (Forall (λ x, x ≠ EmptyString ∧ Py.contains ", " x = false)
            (Py.sorted (elements (members (zip_contract_map s) z ∖ {[c]})))) as Hall.
  { apply Forall_forall. intros x Hx. rewrite sorted_Permutation in Hx.
    apply elem_of_elements in Hx. apply Hnames.
    apply (index_ok_zip s z x Hs). set_solver. }
  assert (length (Py.sorted (elements (members (zip_contract_map s) z ∖ {[c]}))) =
          size (members (zip_contract_map s) z ∖ {[c]})) as Hlen.
  { by rewrite sorted_Permutation. }
  destruct (Py.sorted _) as [|x names] eqn:Hsorted.
  { symmetry in Hlen. apply size_empty_iff in Hlen. by apply leibniz_equiv in Hlen. }
  apply Forall_cons in Hall as Hx. destruct Hx as [[Hx _] _].
  rewrite decide_False by (by apply join_nonempty).
  rewrite split_join; [done|done|].
  eapply Forall_impl; [done|]. by intros ? [_ ?].
Qed.

(** When no contract name is empty or holds ", ", the count kept for a
    contract from its detail rows is its overlap count. *)
Lemma match_counts_without_separator s c Z :
  index_ok s →
  (∀ c', c' ∈ dict_keys (contract_zip_map s) →
     c' ≠ EmptyString ∧ Py.contains ", " c' = false) →
  (c, Z) ∈ dict_items (contract_zip_map s) →
  counter_get (count_matches (detailed_data s)) c = overlap_count s c Z.
Proof.
  intros Hs Hnames Hin. rewrite count_matches_get.
  unfold detailed_data. rewrite fmap_list_bind, sum_list_bind.
  pose proof (λ c z, detail_of_count s c z Hs Hnames) as Hrow. clear Hnames.
  pose proof (ok_keys s Hs) as Hnd. unfold dict_items, dict_keys in *.
  set (count := λ r : detail_row,
         if decide (d_Contract_Name r = c)
         then (if decide (MATCH r = EmptyString) then 0
               else length (Py.split ", " (MATCH r)))
         else 0).
  assert (∀ c' zs, c' ≠ c → sum_list (count <$> (detail_of s c' <$> zs)) = 0) as Hother.
  { intros c' zs Hne. induction zs as [|z zs IHz]; csimpl; [done|].
    rewrite IHz. unfold count; simpl. by rewrite decide_False. }
  assert (∀ zs, sum_list (count <$> (detail_of s c <$> zs)) =
                sum_list ((λ z, size (members (zip_contract_map s) z ∖ {[c]})) <$> zs))
    as Hsame.
  { intros zs. induction zs as [|z zs IHz]; csimpl; [done|].
    rewrite IHz. f_equal. unfold count. rewrite decide_True by done. apply Hrow. }
  induction (contract_zip_map s) as [|[c' Z'] items IH]; [by apply elem_of_nil in Hin|].
  rewrite fmap_cons in Hnd. apply NoDup_cons in Hnd as [Hc' Hnd].
  rewrite fmap_cons. simpl.
  apply elem_of_cons in Hin as [[= <- <-]|Hin].
  - rewrite Hsame. unfold overlap_count.
    rewrite (sorted_Permutation (elements Z)).
    assert (sum_list ((λ x : string * gset string,
              sum_list (count <$> (detail_of s x.1 <$> Py.sorted (elements x.2))))
              <$> items) = 0) as ->; [|lia].
    clear IH Hnd. induction items as [|[c1 Z1] items IH0]; csimpl; [done|].
    rewrite fmap_cons, not_elem_of_cons in Hc'. destruct Hc' as [Hne Hc'].
    rewrite IH0 by done. rewrite Hother; [done|]. by intros ->.
  - rewrite IH by done. rewrite Hother; [done|].
    intros ->. apply Hc', list_elem_of_fmap. by exists (c, Z).
Qed.

(** C4 does not hold on the code. The Contract Match Counts table counts
    the pieces that [split(", ")] finds in the MATCH column, so a contract
    that shares a ZIP with a contract named "Acme, Inc" gets that one
    contract counted twice: for the rows ("Acme, Inc", 10001), (B, 10001)
    the Contract Summary table gives B one ZIP match, its overlap count,
    and the Contract Match Counts table gives B two. *)
Lemma C4_separator_in_name_counted_twice :
  overlap_count separator_state "B" (members (contract_zip_map separator_state) "B") = 1 ∧
  written_summary (analyze_main_data sort_values_stable separator_state).2 =
    Some [("Acme, Inc", 1, 1); ("B", 1, 1)] ∧
  written_match_counts (analyze_main_data sort_values_stable separator_state).2 =
    Some [("B", 2); ("Acme, Inc", 1)].
Proof. by vm_compute. Qed.





(** * Further properties of the analyzer *)

(** ** What [load_main_file] does to the session *)

Lemma index_row_same_index r z s s' :
  same_index s s' → same_index (index_row r z s) (index_row r z s').
Proof. intros (Hc & Hz & Hi). unfold same_index, index_row; simpl. by rewrite Hc, Hz, Hi. Qed.

Lemma ingest_same_index rows s s' :
  same_index s s' →
  same_index (process_chunk rows s).2 (process_chunk rows s').2.
Proof.
  rewrite !process_chunk_run; simpl. revert s s'.
  induction rows as [|r rows IH]; intros s s' Hs; simpl; [done|].
  apply IH. destruct (row_zip r); simpl; [by apply index_row_same_index|done].
Qed.

Lemma process_chunk_app rows1 rows2 s :
  (process_chunk (rows1 ++ rows2) s).2 = (process_chunk rows2 (process_chunk rows1 s).2).2.
Proof. rewrite !process_chunk_run; simpl. by rewrite foldl_app. Qed.

Lemma process_chunk_frame rows s :
  main_file_loaded (process_chunk rows s).2 = main_file_loaded s ∧
  logs (process_chunk rows s).2 = logs s ∧
  output_files (process_chunk rows s).2 = output_files s ∧
  excel_writes (process_chunk rows s).2 = excel_writes s.
Proof.
  rewrite process_chunk_run; simpl. revert s.
  induction rows as [|r rows IH]; intros s; simpl; [done|].
  destruct (IH (from_option (λ z, index_row r z s) s (row_zip r))) as (-> & -> & -> & ->).
  by destruct (row_zip r).
Qed.

(** Closes the goals that say that a part of the state is as it was. *)
Ltac unchanged :=
  first [ done | apply same_index_refl | by repeat split
        | exists []; by rewrite app_nil_r ].

(** The loop over the chunks: the index it leaves is the one the kept rows
    give, it returns the two row counts when every chunk can be read and
    raises at the first chunk that cannot, and it logs progress lines only. *)
Lemma load_chunks_spec main_df filter_active total_rows active_rows chunk_count s :
  same_index (process_chunk (ingested main_df filter_active) s).2
    (load_chunks main_df filter_active total_rows active_rows chunk_count s).2 ∧
  main_file_loaded (load_chunks main_df filter_active total_rows active_rows chunk_count s).2
    = main_file_loaded s ∧
  output_files (load_chunks main_df filter_active total_rows active_rows chunk_count s).2
    = output_files s ∧
  excel_writes (load_chunks main_df filter_active total_rows active_rows chunk_count s).2
    = excel_writes s ∧
  (∃ msgs,
     logs (load_chunks main_df filter_active total_rows active_rows chunk_count s).2
       = logs s ++ msgs ∧
     Forall (λ m, ∃ n, m = ProcessedChunks n) msgs) ∧
  (load_chunks main_df filter_active total_rows active_rows chunk_count s).1 =
    if readable main_df
    then Ok (total_rows + length (file_rows main_df),
             active_rows + length (ingested main_df filter_active))
    else Raised ReadError.
Proof.
  revert total_rows active_rows chunk_count s.
  induction main_df as [|[chunk|] main_df IH]; intros t a n s.
  - simpl. rewrite !Nat.add_0_r. split_and!; unchanged.
  - cbn [load_chunks ingested readable forallb file_rows omap]. fold (readable main_df).
    fold (kept_rows filter_active chunk). rewrite bind_run.
    change (omap id (Some chunk :: main_df)) with (chunk :: omap id main_df).
    cbn [concat]. fold (file_rows main_df). rewrite length_app, process_chunk_app.
    set (kept := kept_rows filter_active chunk).
    assert (∃ s1, (match kept with
                   | [] => mret ()
                   | _ :: _ => process_chunk kept;;
                       (if bool_decide (S n `mod` 10 = 0)
                        then log_message (ProcessedChunks (S n)) else mret ())
                   end) s = (Ok (), s1) ∧
              same_index (process_chunk kept s).2 s1 ∧
              main_file_loaded s1 = main_file_loaded s ∧
              output_files s1 = output_files s ∧
              excel_writes s1 = excel_writes s ∧
              ∃ msgs, logs s1 = logs s ++ msgs ∧
                      Forall (λ m, ∃ n, m = ProcessedChunks n) msgs) as (s1 & -> & H1 & Hm & Ho & Hw & msgs1 & Hl & Hmsgs).
    { destruct kept as [|r rows] eqn:Hkept.
      - exists s. split_and!; unchanged.
      - rewrite bind_run.
        destruct (process_chunk_frame (r :: rows) s) as (Hm & Hl & Ho & Hw).
        pose proof (process_chunk_run (r :: rows) s) as Hrun.
        destruct (process_chunk (r :: rows) s) as [o s0].
        apply (f_equal fst) in Hrun. cbn [fst snd] in *. subst o.
        case_bool_decide; cbn -[Nat.modulo].
        + eexists. split_and!; [done|by repeat split|done|done|done|].
          eexists [_]. rewrite Hl. split; [done|]. repeat constructor. by eauto.
        + eexists. split_and!; [done|unchanged..|].
          exists []. by rewrite app_nil_r, Hl. }
    destruct (IH (t + length chunk) (a + length kept) (S n) s1)
      as (Hidx & -> & -> & -> & (msgs & -> & Hmsgs') & ->).
    split_and!; try done.
    + eapply same_index_trans; [|exact Hidx]. by apply ingest_same_index.
    + exists (msgs1 ++ msgs). rewrite Hl, <- app_assoc. split; [done|].
      by apply Forall_app.
    + destruct (readable main_df); [|done]. simpl andb.
      unfold file_rows. csimpl. rewrite length_app. do 2 f_equal; lia.
  - simpl. split_and!; unchanged.
Qed.

(** The whole load: the index is the one the kept rows give from an empty
    index, [output_files] is emptied, no workbook is written, the flag is
    set only when every chunk was read, and the log gets the start line,
    progress lines, and then either the three closing lines or the error. *)
Lemma load_main_file_spec main_file filter_active s :
  same_index (process_chunk (ingested main_file filter_active) init_state).2
    (load_main_file main_file filter_active s).2 ∧
  output_files (load_main_file main_file filter_active s).2 = [] ∧
  excel_writes (load_main_file main_file filter_active s).2 = excel_writes s ∧
  main_file_loaded (load_main_file main_file filter_active s).2 =
    (if readable main_file then true else main_file_loaded s) ∧
  ∃ msgs,
    Forall (λ m, ∃ n, m = ProcessedChunks n) msgs ∧
    logs (load_main_file main_file filter_active s).2 =
      logs s ++ Text "Starting to load main contracts file..." :: msgs ++
      (if readable main_file
       then [ Text "Main file loaded successfully!";
              RowTotals (length (file_rows main_file))
                (length (ingested main_file filter_active));
              IndexTotals
                (dict_len (contract_zip_map (load_main_file main_file filter_active s).2))
                (dict_len (zip_contract_map (load_main_file main_file filter_active s).2)) ]
       else [ErrorLoading ReadError]).
Proof.
  unfold load_main_file, try_except. repeat (rewrite bind_run; simpl).
  match goal with
  | |- context [load_chunks _ _ _ _ _ ?s0] =>
      destruct (load_chunks_spec main_file filter_active 0 0 0 s0)
        as (Hidx & Hm & Ho & Hw & (msgs & Hl & Hmsgs) & Hres);
      assert (same_index (process_chunk (ingested main_file filter_active) init_state).2
                (process_chunk (ingested main_file filter_active) s0).2) as H0
        by (apply ingest_same_index; by repeat split);
      destruct (load_chunks main_file filter_active 0 0 0 s0) as [o s1]
  end.
  pose proof (same_index_trans _ _ _ H0 Hidx) as H1. clear H0 Hidx.
  cbn [fst snd] in *. simpl in Hm, Ho, Hw, Hl.
  destruct (readable main_file); subst o; simpl.
  - destruct H1 as (Hc & Hz & Hi). split_and!; [by repeat split|done..|].
    exists msgs. split; [done|]. by rewrite Hl, <- !app_assoc.
  - split_and!; [done..|].
    exists msgs. split; [done|]. by rewrite Hl, <- !app_assoc.
Qed.

(** ** The pairs in the index *)

Lemma index_row_members_czm r z s c z' :
  z' ∈ members (contract_zip_map (index_row r z s)) c ↔
  z' ∈ members (contract_zip_map s) c ∨ (Contract_Name r = c ∧ z = z').
Proof.
  unfold index_row; simpl. rewrite members_set.
  case_decide; subst; set_solver.
Qed.

Lemma index_row_members_zcm r z s c z' :
  c ∈ members (zip_contract_map (index_row r z s)) z' ↔
  c ∈ members (zip_contract_map s) z' ∨ (Contract_Name r = c ∧ z = z').
Proof.
  unfold index_row; simpl. rewrite members_set.
  case_decide; subst; set_solver.
Qed.

Lemma process_chunk_members rows s c z :
  (z ∈ members (contract_zip_map (process_chunk rows s).2) c ↔
   z ∈ members (contract_zip_map s) c ∨
   ∃ r, r ∈ rows ∧ Contract_Name r = c ∧ row_zip r = Some z) ∧
  (c ∈ members (zip_contract_map (process_chunk rows s).2) z ↔
   c ∈ members (zip_contract_map s) z ∨
   ∃ r, r ∈ rows ∧ Contract_Name r = c ∧ row_zip r = Some z).
Proof.
  rewrite process_chunk_run; simpl. revert s.
  induction rows as [|r rows IH]; intros s; simpl.
  - split; (split; [by left|]); (intros [?|(r & ?%elem_of_nil & _)]; done).
  - destruct (IH (from_option (λ z0, index_row r z0 s) s (row_zip r))) as [-> ->].
    destruct (row_zip r) as [z0|] eqn:Hr; cbn [from_option].
    + rewrite index_row_members_czm, index_row_members_zcm.
      split; (split; [intros [[?|[<- <-]]|(r' & ? & ? & ?)]|intros [?|(r' & [->|?]%elem_of_cons & <- & Hz)]]);
        try (rewrite Hz in Hr; simplify_eq); eauto 8 using list_elem_of_here, list_elem_of_further.
    + split; (split; [intros [?|(r' & ? & ? & ?)]|intros [?|(r' & [->|?]%elem_of_cons & <- & Hz)]]);
        try congruence; eauto 8 using list_elem_of_here, list_elem_of_further.
Qed.

Lemma row_zip_Some (r : row string) z :
  row_zip r = Some z ↔
  Py.strip (Zip_Code r) = z ∧ z ≠ EmptyString ∧ z ≠ "nan".
Proof.
  unfold row_zip.
  destruct (bool_decide (Py.strip (Zip_Code r) = EmptyString)) eqn:H1;
    destruct (bool_decide (Py.strip (Zip_Code r) = "nan")) eqn:H2; simpl;
    try apply bool_decide_eq_true in H1; try apply bool_decide_eq_true in H2;
    try apply bool_decide_eq_false in H1; try apply bool_decide_eq_false in H2;
    split; try (intros [= <-]); try (intros (<- & ? & ?)); try done.
Qed.

(** ** The rows a load keeps *)

Lemma filter_status_app col l1 l2 :
  filter_status col (l1 ++ l2) = filter_status col l1 ++ filter_status col l2.
Proof. apply List.filter_app. Qed.

Lemma kept_rows_app b l1 l2 :
  kept_rows b (l1 ++ l2) = kept_rows b l1 ++ kept_rows b l2.
Proof.
  unfold kept_rows, dropna. destruct b.
  - by rewrite !filter_status_app, omap_app.
  - by rewrite omap_app.
Qed.

Lemma ingested_readable main_file b :
  readable main_file = true → ingested main_file b = kept_rows b (file_rows main_file).
Proof.
  unfold file_rows.
  induction main_file as [|[chunk|] main_file IH]; simpl; [by destruct b| |done].
  intros Hr. csimpl. by rewrite kept_rows_app, IH.
Qed.

Lemma ingested_broken before rest b :
  readable before = true →
  ingested (before ++ None :: rest) b = ingested before b ∧
  readable (before ++ None :: rest) = false.
Proof.
  induction before as [|[chunk|] before IH]; simpl; [done| |done].
  intros Hr. destruct (IH Hr) as [-> ->]. done.
Qed.

Lemma elem_of_filter_status col rows raw :
  raw ∈ filter_status col rows ↔ raw ∈ rows ∧ status_ok (col raw) = true.
Proof. unfold filter_status, status_ok. by rewrite elem_of_List_filter. Qed.

Lemma kept_rows_pairs b rows c z :
  (∃ r, r ∈ kept_rows b rows ∧ Contract_Name r = c ∧ row_zip r = Some z) ↔
  ∃ raw zip_code,
    raw ∈ rows ∧ Contract_Name raw = Str c ∧ Zip_Code raw = Str zip_code ∧
    Py.strip zip_code = z ∧ z ≠ EmptyString ∧ z ≠ "nan" ∧
    (b = true → status_ok (Contract_Status raw) = true ∧
                status_ok (Buyer_Status raw) = true).
Proof.
  unfold kept_rows, dropna. split.
  - intros (r & (raw & Hraw & Hr)%list_elem_of_omap & <- & (Hz & ? & ?)%row_zip_Some).
    destruct (Contract_Name raw) as [|c'] eqn:Hc; [done|].
    destruct (Zip_Code raw) as [|zc] eqn:Hzc; [done|]. simplify_eq/=.
    exists raw, zc. split_and!; try done.
    + destruct b; [|done].
      apply elem_of_filter_status in Hraw as [Hraw _].
      by apply elem_of_filter_status in Hraw as [Hraw _].
    + intros ->. apply elem_of_filter_status in Hraw as [Hraw ?].
      by apply elem_of_filter_status in Hraw as [_ ?].
  - intros (raw & zc & Hraw & Hc & Hzc & Hz & ? & ? & Hb).
    eexists. split_and!.
    + apply list_elem_of_omap. exists raw. rewrite Hc, Hzc. split; [|done].
      destruct b; [|done]. destruct Hb as [? ?]; [done|].
      by rewrite !elem_of_filter_status.
    + done.
    + by apply row_zip_Some.
Qed.

(** X1. After a load of a file that can be read to the end and has text
    in its status columns where they are filtered, a ZIP [z] is
    in the set of a contract [c] exactly when the file has a row with this
    contract name and a ZIP cell that trims to [z], where [z] is neither
    empty nor ["nan"], and, if the active filter is on, whose contract and
    buyer status cells (where the file has these columns) read "active"
    whatever the case. Rows with a null name or ZIP never count. *)
Theorem load_main_file_indexes_kept_rows main_file filter_active s c z :
  readable main_file = true → filterable main_file filter_active = true →
  z ∈ members (contract_zip_map (load_main_file main_file filter_active s).2) c ↔
  ∃ raw zip_code,
    raw ∈ file_rows main_file ∧
    Contract_Name raw = Str c ∧ Zip_Code raw = Str zip_code ∧
    Py.strip zip_code = z ∧ z ≠ EmptyString ∧ z ≠ "nan" ∧
    (filter_active = true → status_ok (Contract_Status raw) = true ∧
                            status_ok (Buyer_Status raw) = true).
Proof.
  intros Hr _.
  destruct (load_main_file_spec main_file filter_active s) as ((-> & _ & _) & _).
  destruct (process_chunk_members (ingested main_file filter_active) init_state c z)
    as [-> _].
  rewrite ingested_readable by done. rewrite kept_rows_pairs.
  unfold members; simpl. set_solver.
Qed.

Lemma load_main_file_indexes_kept_rows_witness :
  "ZIP1" ∈ members (contract_zip_map (load_main_file scenario_C_file true init_state).2) "C2" ↔
  ∃ raw zip_code,
    raw ∈ file_rows scenario_C_file ∧
    Contract_Name raw = Str "C2" ∧ Zip_Code raw = Str zip_code ∧
    Py.strip zip_code = "ZIP1" ∧ "ZIP1" ≠ EmptyString ∧ "ZIP1" ≠ "nan" ∧
    (true = true → status_ok (Contract_Status raw) = true ∧
                   status_ok (Buyer_Status raw) = true).
Proof.
  apply (load_main_file_indexes_kept_rows scenario_C_file true init_state "C2" "ZIP1");
    reflexivity.
Defined.

(** X2. A load starts from nothing: the index it leaves is the same
    whatever the session held before, [output_files] is emptied, and the
    workbooks written so far and the earlier log lines stay. *)
Theorem load_main_file_resets main_file filter_active s1 s2 :
  contract_zip_map (load_main_file main_file filter_active s1).2 =
    contract_zip_map (load_main_file main_file filter_active s2).2 ∧
  zip_contract_map (load_main_file main_file filter_active s1).2 =
    zip_contract_map (load_main_file main_file filter_active s2).2 ∧
  contract_info (load_main_file main_file filter_active s1).2 =
    contract_info (load_main_file main_file filter_active s2).2 ∧
  output_files (load_main_file main_file filter_active s1).2 = [] ∧
  excel_writes (load_main_file main_file filter_active s1).2 = excel_writes s1 ∧
  logs s1 `prefix_of` logs (load_main_file main_file filter_active s1).2.
Proof.
  destruct (load_main_file_spec main_file filter_active s1)
    as ((-> & -> & ->) & -> & -> & _ & msgs & _ & ->).
  destruct (load_main_file_spec main_file filter_active s2)
    as ((-> & -> & ->) & _).
  split_and!; try done. by eexists.
Qed.



(** X4. A load that meets a chunk it cannot read, after chunks that have
    text in their status columns where they are filtered, stops there
    without rollback: the index holds the rows of the chunks before it, as if the
    file ended there, nothing of the later chunks; [main_file_loaded] keeps
    the value it had, so it stays set after an earlier load; and the last
    log line is the error. *)
Theorem load_main_file_stops_at_unreadable_chunk before rest filter_active s :
  readable before = true → filterable before filter_active = true →
  contract_zip_map (load_main_file (before ++ None :: rest) filter_active s).2 =
    contract_zip_map (load_main_file before filter_active s).2 ∧
  zip_contract_map (load_main_file (before ++ None :: rest) filter_active s).2 =
    zip_contract_map (load_main_file before filter_active s).2 ∧
  contract_info (load_main_file (before ++ None :: rest) filter_active s).2 =
    contract_info (load_main_file before filter_active s).2 ∧
  main_file_loaded (load_main_file (before ++ None :: rest) filter_active s).2 =
    main_file_loaded s ∧
  last (logs (load_main_file (before ++ None :: rest) filter_active s).2) =
    Some (ErrorLoading ReadError).
Proof.
  intros Hr _. destruct (ingested_broken before rest filter_active Hr) as [Hin Hnr].
  destruct (load_main_file_spec (before ++ None :: rest) filter_active s)
    as ((-> & -> & ->) & _ & _ & -> & msgs & _ & ->).
  destruct (load_main_file_spec before filter_active s) as ((-> & -> & ->) & _).
  rewrite Hin, Hnr. split_and!; try done.
  by rewrite app_comm_cons, app_assoc, last_snoc.
Qed.

Lemma load_main_file_stops_at_unreadable_chunk_witness :
  main_file_loaded (load_main_file (scenario_A_file ++ None :: [Some []]) true
                      (load_main_file scenario_A_file true init_state).2).2 =
    main_file_loaded (load_main_file scenario_A_file true init_state).2 ∧
  last (logs (load_main_file (scenario_A_file ++ None :: [Some []]) true
                (load_main_file scenario_A_file true init_state).2).2) =
    Some (ErrorLoading ReadError).
Proof.
  apply (load_main_file_stops_at_unreadable_chunk scenario_A_file [Some []] true
           (load_main_file scenario_A_file true init_state).2); reflexivity.
Defined.

(** X5. A load of a file that can be read to the end and has text in its
    status columns where they are filtered sets
    [main_file_loaded] and ends its log with the success line, the number
    of rows of the file with the number of rows kept, and the number of
    contracts with the number of ZIP codes of the index. *)
Theorem load_main_file_success main_file filter_active s :
  readable main_file = true → filterable main_file filter_active = true →
  main_file_loaded (load_main_file main_file filter_active s).2 = true ∧
  ∃ earlier,
    logs (load_main_file main_file filter_active s).2 =
      earlier ++
      [ Text "Main file loaded successfully!";
        RowTotals (length (file_rows main_file))
          (length (kept_rows filter_active (file_rows main_file)));
        IndexTotals
          (length (dict_keys (contract_zip_map (load_main_file main_file filter_active s).2)))
          (length (dict_keys (zip_contract_map (load_main_file main_file filter_active s).2))) ].
Proof.
  intros Hr _.
  destruct (load_main_file_spec main_file filter_active s)
    as (_ & _ & _ & -> & msgs & _ & ->).
  rewrite Hr, ingested_readable by done. split; [done|].
  eexists (_ ++ _ :: _). rewrite <- app_assoc. simpl.
  unfold dict_keys, dict_len. by rewrite !length_fmap.
Qed.

Lemma load_main_file_success_witness :
  main_file_loaded (load_main_file scenario_A_file true init_state).2 = true.
Proof.
  apply (load_main_file_success scenario_A_file true init_state); reflexivity.
Defined.

(** ** Invariants of the states of a session *)

Section reachable_invariant.
Variable P : session_state → Prop.
Hypothesis P_index : ∀ s s', same_index s s' → P s → P s'.
Hypothesis P_row : ∀ r z s, row_zip r = Some z → P s → P (index_row r z s).
Hypothesis P_init : P init_state.

Lemma process_chunk_invariant rows s : P s → P (process_chunk rows s).2.
Proof.
  rewrite process_chunk_run; simpl. revert s.
  induction rows as [|r rows IH]; intros s Hs; simpl; [done|].
  apply IH. destruct (row_zip r) eqn:Hr; simpl; [by apply P_row|done].
Qed.

Lemma reachable_invariant s : reachable s → P s.
Proof.
  induction 1 as [|s chunk _ IH|s main_file filter_active _ _|s sort_values Hs IH
                 |s sort_values new_zip_file Hs IH].
  - done.
  - by apply process_chunk_invariant.
  - destruct (load_main_file_spec main_file filter_active s) as (Hidx & _).
    eapply P_index; [exact Hidx|]. by apply process_chunk_invariant.
  - eapply P_index; [|done].
    by apply analyze_main_data_same_index, reachable_index_ok.
  - eapply P_index; [|done].
    by apply analyze_new_zips_same_index, reachable_index_ok.
Qed.
End reachable_invariant.

Lemma elem_of_dict_keys_set {K V} `{EqDecision K} (d : dict K V) k v k' :
  k' ∈ dict_keys (dict_set d k v) ↔ k' = k ∨ k' ∈ dict_keys d.
Proof.
  rewrite !elem_of_dict_keys, dict_get_set. case_decide; naive_solver.
Qed.

Lemma dict_in_keys_eq {K V W} `{EqDecision K} (d : dict K V) (d' : dict K W) k :
  dict_keys d = dict_keys d' → dict_in k d = dict_in k d'.
Proof.
  intros Hk. pose proof (dict_in_true d k) as H1. pose proof (dict_in_true d' k) as H2.
  rewrite Hk in H1. destruct (dict_in k d), (dict_in k d'); naive_solver.
Qed.

Lemma index_row_info_mirrors r z s :
  info_mirrors_index s → info_mirrors_index (index_row r z s).
Proof.
  intros [Hkeys Hstates]. unfold info_mirrors_index, index_row; simpl. split.
  - rewrite !dict_keys_set, Hkeys.
    by rewrite (dict_in_keys_eq (contract_info s) (contract_zip_map s)).
  - intros c i. rewrite dict_get_set, members_set.
    destruct (decide (c = Contract_Name r)) as [->|Hne]; [|by apply Hstates].
    intros [= <-] z'. unfold dict_keys at 1. simpl.
    fold (dict_keys (dict_set (zip_states
      (default (row_info r) (dict_get (contract_info s) (Contract_Name r)))) z
      (row_state_id r))).
    rewrite elem_of_dict_keys_set, elem_of_union, elem_of_singleton.
    destruct (dict_get (contract_info s) (Contract_Name r)) as [i0|] eqn:Hi0; simpl.
    + rewrite (Hstates _ _ Hi0). tauto.
    + assert (members (contract_zip_map s) (Contract_Name r) = ∅) as ->.
      { apply dict_in_false_members.
        rewrite <- (dict_in_keys_eq (contract_info s) (contract_zip_map s)) by done.
        unfold dict_in. by rewrite Hi0. }
      unfold dict_keys; simpl. set_solver.
Qed.

(** X6. In every state of a session, [contract_info] has exactly the
    contracts of [contract_zip_map], in the same order, and the state ids
    recorded for a contract are those of exactly its ZIPs. *)
Theorem contract_info_mirrors_index s :
  reachable s →
  dict_keys (contract_info s) = dict_keys (contract_zip_map s) ∧
  ∀ c i, dict_get (contract_info s) c = Some i →
    ∀ z, z ∈ dict_keys (zip_states i) ↔ z ∈ members (contract_zip_map s) c.
Proof.
  apply (reachable_invariant info_mirrors_index).
  - intros s1 s2 (Hc & Hz & Hi). unfold info_mirrors_index. by rewrite Hc, Hi.
  - intros r z s1 _. apply index_row_info_mirrors.
  - split; [done|]. intros c i. simpl. done.
Qed.

Lemma contract_info_mirrors_index_witness :
  dict_keys (contract_info scenario_A) = dict_keys (contract_zip_map scenario_A).
Proof. apply (contract_info_mirrors_index scenario_A scenario_A_reachable). Defined.

(** ** Trimmed ZIP codes *)

Lemma rstrip_cons a s :
  Py.rstrip (String a s) =
    match Py.rstrip s with
    | EmptyString => if Py.isspace a then EmptyString else String a EmptyString
    | String b r => String a (String b r)
    end.
Proof. reflexivity. Qed.

Lemma rstrip_rstrip s : Py.rstrip (Py.rstrip s) = Py.rstrip s.
Proof.
  induction s as [|a s IH]; [done|]. rewrite rstrip_cons.
  destruct (Py.rstrip s) as [|b r] eqn:Hr.
  - destruct (Py.isspace a) eqn:Ha; [done|]. rewrite rstrip_cons. simpl. by rewrite Ha.
  - rewrite rstrip_cons, IH. done.
Qed.

Lemma rstrip_lstrip s : Py.rstrip s = s → Py.rstrip (Py.lstrip s) = Py.lstrip s.
Proof.
  induction s as [|a s IH]; [done|]. intros Hs. cbn [Py.lstrip].
  destruct (Py.isspace a) eqn:Ha; [|done].
  apply IH. rewrite rstrip_cons, Ha in Hs.
  destruct (Py.rstrip s); [done|]. by injection Hs.
Qed.

Lemma lstrip_lstrip s : Py.lstrip (Py.lstrip s) = Py.lstrip s.
Proof.
  induction s as [|a s IH]; [done|]. cbn [Py.lstrip].
  destruct (Py.isspace a) eqn:Ha; [done|]. cbn [Py.lstrip]. by rewrite Ha.
Qed.

(** Trimming twice is trimming once. *)
Lemma strip_strip s : Py.strip (Py.strip s) = Py.strip s.
Proof.
  unfold Py.strip.
  rewrite (rstrip_lstrip (Py.rstrip s)) by apply rstrip_rstrip.
  apply lstrip_lstrip.
Qed.

Lemma row_zip_normalized (r : row string) z : row_zip r = Some z → normalized_zip z.
Proof.
  intros (<- & ? & ?)%row_zip_Some. split_and!; [apply strip_strip|done..].
Qed.

(** X7. In every state of a session, each ZIP of the index is trimmed, not
    empty and not ["nan"]. So a query value that is null or blank matches
    nothing, and every ZIP of a match row is such a ZIP. *)
Theorem zip_keys_normalized s :
  reachable s →
  (∀ z, z ∈ dict_keys (zip_contract_map s) →
     Py.strip z = z ∧ z ≠ EmptyString ∧ z ≠ "nan") ∧
  (∀ c z, z ∈ members (contract_zip_map s) c →
     Py.strip z = z ∧ z ≠ EmptyString ∧ z ≠ "nan") ∧
  (∀ column, (∀ v, v ∈ column → v = NaN ∨ Py.strip (str v) = EmptyString) →
     match_results_of s (normalize_zips column) = []).
Proof.
  intros Hs.
  assert (zips_normalized s) as Hnorm.
  { revert s Hs. apply (reachable_invariant zips_normalized).
    - intros s1 s2 (_ & Hz & _). unfold zips_normalized. by rewrite Hz.
    - intros r z s1 Hr Hs1 z'. unfold index_row; simpl.
      rewrite elem_of_dict_keys_set. intros [->|?]; [|by apply Hs1].
      by eapply row_zip_normalized.
    - by intros z ?%elem_of_nil. }
  pose proof (reachable_index_ok s Hs) as Hok.
  split_and!.
  - done.
  - intros c z Hz. apply Hnorm.
    by apply (members_elem_of_keys _ _ c), (ok_consistent s Hok).
  - intros column Hcol. apply match_results_nil; [done|].
    intros z (v & Hv & ->)%normalize_zips_spec Hkey.
    destruct (Hnorm _ Hkey) as (_ & Hne & Hnan).
    destruct (Hcol v Hv) as [->|Hblank]; [by apply Hnan|by apply Hne].
Qed.

Lemma zip_keys_normalized_witness :
  match_results_of scenario_A (normalize_zips [NaN; Str "  "]) = [].
Proof.
  apply (zip_keys_normalized scenario_A scenario_A_reachable).
  intros v [->|[->|?%elem_of_nil]%elem_of_cons]%elem_of_cons; [by left|by right|done].
Defined.

(** ** The order of the rows *)

(** X8. The two maps, and with them the overlap count and the overlapping
    contracts of every contract, do not depend on the order in which the
    rows are ingested. (The metadata and the state ids do: the first row
    of a contract gives its metadata, the last row of a pair its state
    id.) *)
Theorem process_chunk_order_independent rows rows' s :
  rows ≡ₚ rows' →
  (∀ c, members (contract_zip_map (process_chunk rows s).2) c =
        members (contract_zip_map (process_chunk rows' s).2) c) ∧
  (∀ z, members (zip_contract_map (process_chunk rows s).2) z =
        members (zip_contract_map (process_chunk rows' s).2) z) ∧
  (∀ c Z, overlap_count (process_chunk rows s).2 c Z =
          overlap_count (process_chunk rows' s).2 c Z) ∧
  (∀ c Z, overlapping_contracts (process_chunk rows s).2 c Z =
          overlapping_contracts (process_chunk rows' s).2 c Z).
Proof.
  intros Hperm.
  assert (∀ c, members (contract_zip_map (process_chunk rows s).2) c =
               members (contract_zip_map (process_chunk rows' s).2) c) as Hc.
  { intros c. apply set_eq. intros z.
    destruct (process_chunk_members rows s c z) as [-> _].
    destruct (process_chunk_members rows' s c z) as [-> _].
    by setoid_rewrite Hperm. }
  assert (∀ z, members (zip_contract_map (process_chunk rows s).2) z =
               members (zip_contract_map (process_chunk rows' s).2) z) as Hz.
  { intros z. apply set_eq. intros c.
    destruct (process_chunk_members rows s c z) as [_ ->].
    destruct (process_chunk_members rows' s c z) as [_ ->].
    by setoid_rewrite Hperm. }
  split_and!; [done|done| |].
  - intros c Z. unfold overlap_count. f_equal.
    apply list_fmap_ext. intros _ z _. by rewrite Hz.
  - intros c Z. unfold overlapping_contracts. f_equal.
    apply list_fmap_ext. intros _ z _. by rewrite Hz.
Qed.

Lemma process_chunk_order_independent_witness :
  overlap_count (process_chunk (reverse scenario_A_rows) init_state).2 "C1" {["ZIP1"]} =
    overlap_count (process_chunk scenario_A_rows init_state).2 "C1" {["ZIP1"]}.
Proof.
  apply (process_chunk_order_independent (reverse scenario_A_rows) scenario_A_rows
           init_state).
  apply reverse_Permutation.
Defined.

(** ** The overlap relation *)

Lemma elem_of_overlapping_contracts s c Z c' :
  c' ∈ overlapping_contracts s c Z ↔
  c' ≠ c ∧ ∃ z, z ∈ Z ∧ c' ∈ members (zip_contract_map s) z.
Proof.
  unfold overlapping_contracts. rewrite elem_of_union_list. split.
  - intros (X & (z & -> & Hz%elem_of_elements)%list_elem_of_fmap & Hc').
    set_solver.
  - intros (Hne & z & Hz & Hc'). eexists. split.
    + apply list_elem_of_fmap. exists z. by rewrite elem_of_elements.
    + set_solver.
Qed.

(** X9. Overlap is the sharing of a ZIP: for two contracts of the index,
    the second is among the overlapping contracts of the first exactly
    when they are different and have a ZIP in common; so a contract never
    overlaps itself and overlap is symmetric. *)
Theorem overlap_is_sharing_a_zip s c Z c' Z' :
  reachable s →
  (c, Z) ∈ dict_items (contract_zip_map s) →
  (c', Z') ∈ dict_items (contract_zip_map s) →
  (c ∉ overlapping_contracts s c Z) ∧
  (c' ∈ overlapping_contracts s c Z ↔ c' ≠ c ∧ ∃ z, z ∈ Z ∧ z ∈ Z') ∧
  (c' ∈ overlapping_contracts s c Z ↔ c ∈ overlapping_contracts s c' Z').
Proof.
  intros Hs%reachable_index_ok Hc Hc'.
  destruct (index_ok_item s c Z Hs Hc) as (HZ & _).
  destruct (index_ok_item s c' Z' Hs Hc') as (HZ' & _).
  pose proof (ok_consistent s Hs) as Hcons.
  rewrite !elem_of_overlapping_contracts. split_and!.
  - naive_solver.
  - split.
    + intros (Hne & z & Hz & Hin). split; [done|]. exists z. split; [done|].
      rewrite <- HZ'. by apply Hcons.
    + intros (Hne & z & Hz & Hin). split; [done|]. exists z. split; [done|].
      apply Hcons. by rewrite HZ'.
  - split.
    + intros (Hne & z & Hz & Hin). split; [done|]. exists z.
      split; [rewrite <- HZ'; by apply Hcons|]. apply Hcons. by rewrite HZ.
    + intros (Hne & z & Hz & Hin). split; [done|]. exists z.
      split; [rewrite <- HZ; by apply Hcons|]. apply Hcons. by rewrite HZ'.
Qed.

Lemma overlap_is_sharing_a_zip_witness :
  "C2" ∈ overlapping_contracts scenario_A "C1" {["ZIP1"]} ↔
  "C1" ∈ overlapping_contracts scenario_A "C2" {["ZIP1"]}.
Proof.
  apply (overlap_is_sharing_a_zip scenario_A "C1" {["ZIP1"]} "C2" {["ZIP1"]}
           scenario_A_reachable).
  - vm_compute. left.
  - vm_compute. right. left.
Defined.

Lemma sum_list_cons x l : sum_list (x :: l) = x + sum_list l.
Proof. reflexivity. Qed.

Lemma size_union_list_le (Xs : list (gset string)) :
  size (⋃ Xs) ≤ sum_list (size <$> Xs).
Proof.
  induction Xs as [|X Xs IH]; [done|].
  rewrite union_list_cons, fmap_cons, size_union_alt. cbn [sum_list_with].
  pose proof (subseteq_size (⋃ Xs ∖ X) (⋃ Xs) ltac:(set_solver)).
  apply Nat.add_le_mono_l. by etrans.
Qed.

(** X10. For a contract of the index, the number of distinct overlapping
    contracts is at most its overlap count; the overlap count is the sum of
    the sizes of the contract sets of its ZIPs less the number of its
    ZIPs; and it is zero exactly when no ZIP of the contract is claimed by
    another contract. *)
Theorem overlap_count_arithmetic s c Z :
  reachable s → (c, Z) ∈ dict_items (contract_zip_map s) →
  size (overlapping_contracts s c Z) ≤ overlap_count s c Z ∧
  overlap_count s c Z + size Z =
    sum_list ((λ z, size (members (zip_contract_map s) z)) <$> elements Z) ∧
  (overlap_count s c Z = 0 ↔
   ∀ z, z ∈ Z → members (zip_contract_map s) z = {[c]}).
Proof.
  intros Hs%reachable_index_ok Hc.
  destruct (index_ok_item s c Z Hs Hc) as (HZ & _).
  pose proof (ok_consistent s Hs) as Hcons.
  assert (∀ z, z ∈ elements Z → c ∈ members (zip_contract_map s) z) as Hin.
  { intros z Hz%elem_of_elements. apply Hcons. by rewrite HZ. }
  split_and!.
  - unfold overlapping_contracts, overlap_count.
    etrans; [apply size_union_list_le|]. by rewrite <- list_fmap_compose.
  - assert (size Z = length (elements Z)) as -> by done.
    unfold overlap_count.
    induction (elements Z) as [|z zs IH]; [done|].
    rewrite !fmap_cons, !sum_list_cons. cbn [length].
    rewrite <- IH by (intros; apply Hin; by right).
    pose proof (size_difference (members (zip_contract_map s) z) {[c]}
                  ltac:(apply singleton_subseteq_l, Hin; left)) as Hd.
    rewrite size_singleton in Hd.
    assert (size (members (zip_contract_map s) z) ≠ 0).
    { apply size_non_empty_iff. intros Hempty.
      pose proof (Hin z ltac:(left)) as Hc'. set_solver. }
    lia.
  - rewrite <- overlap_zero_iff, size_empty_iff.
    setoid_rewrite <- elem_of_elements. split.
    + intros Hempty z Hz. apply set_eq. intros c'. rewrite elem_of_singleton.
      split; [|intros ->; by apply Hin].
      intros Hc'. destruct (decide (c' = c)) as [|Hne]; [done|].
      assert (c' ∈ overlapping_contracts s c Z) as Hov.
      { apply elem_of_overlapping_contracts. split; [done|].
        exists z. by rewrite <- elem_of_elements. }
      set_solver.
    + intros Hall c'. rewrite elem_of_overlapping_contracts.
      split; [|set_solver]. intros (Hne & z & Hz%elem_of_elements & Hc').
      rewrite (Hall z Hz) in Hc'. set_solver.
Qed.

Lemma overlap_count_arithmetic_witness :
  size (overlapping_contracts scenario_A "C1" {["ZIP1"]})
    ≤ overlap_count scenario_A "C1" {["ZIP1"]}.
Proof.
  apply (overlap_count_arithmetic scenario_A "C1" {["ZIP1"]} scenario_A_reachable).
  vm_compute. left.
Defined.

(** ** How [analyze_main_data] ends *)

Lemma scenario_A_not_empty : contract_zip_map scenario_A ≠ [].
Proof. done. Qed.

Lemma scenario_A_statuses : statuses_are_text scenario_A.
Proof. exists "C1". eexists. split; [reflexivity|done]. Qed.








(** ** Sheet names of the batch files *)

Lemma has_char_append a s t : has_char a (s +:+ t) = has_char a s || has_char a t.
Proof.
  induction s as [|b s IH]; [done|]. rewrite append_cons. cbn [has_char].
  by rewrite IH, orb_assoc.
Qed.

Lemma replace_char_append old new s t :
  Py.replace_char old new (s +:+ t) =
    Py.replace_char old new s +:+ Py.replace_char old new t.
Proof.
  induction s as [|b s IH]; [done|]. rewrite append_cons. cbn [Py.replace_char].
  rewrite IH. destruct (Ascii.eqb b old); [by rewrite append_assoc|done].
Qed.

Lemma has_char_replace_old old new s :
  has_char old new = false → has_char old (Py.replace_char old new s) = false.
Proof.
  intros Hnew. induction s as [|b s IH]; [done|]. cbn [Py.replace_char].
  destruct (Ascii.eqb b old) eqn:Hb.
  - by rewrite has_char_append, Hnew, IH.
  - cbn [has_char]. by rewrite Ascii.eqb_sym, Hb, IH.
Qed.

Lemma has_char_replace a old new s :
  has_char a s = false → has_char a new = false →
  has_char a (Py.replace_char old new s) = false.
Proof.
  intros Hs Hnew. induction s as [|b s IH]; [done|].
  cbn [has_char] in Hs. apply orb_false_iff in Hs as [Hab Hs].
  cbn [Py.replace_char]. destruct (Ascii.eqb b old).
  - by rewrite has_char_append, Hnew, IH.
  - cbn [has_char]. by rewrite Hab, IH.
Qed.

Lemma replace_char_absent old new s :
  has_char old s = false → Py.replace_char old new s = s.
Proof.
  induction s as [|b s IH]; [done|]. cbn [has_char Py.replace_char].
  intros [Hb Hs]%orb_false_iff. rewrite Ascii.eqb_sym, Hb. by rewrite IH.
Qed.

Lemma has_char_take a n s : has_char a s = false → has_char a (Py.take n s) = false.
Proof.
  revert s. induction n as [|n IH]; intros [|b s]; try done.
  cbn [has_char Py.take]. intros [-> Hs]%orb_false_iff. by rewrite IH.
Qed.

Lemma take_length n s : String.length (Py.take n s) ≤ n.
Proof.
  revert s. induction n as [|n IH]; intros [|b s]; simpl; try lia.
  specialize (IH s). lia.
Qed.

Lemma take_short n s : String.length s ≤ n → Py.take n s = s.
Proof.
  revert s. induction n as [|n IH]; intros [|b s]; simpl; try done; try lia.
  intros Hs. rewrite IH; [done|lia].
Qed.

(** X12. The sheet name made from a contract name has at most 31
    characters and none of the characters / \ [ ]; a name that is short
    and has none of them is its own sheet name; and sheet names are not
    unique: a name that ends in / and the same name with _ in its place
    get the same sheet name. *)
Theorem sheet_name_of_spec c :
  String.length (sheet_name_of c) ≤ 31 ∧
  sheet_name_clean (sheet_name_of c) ∧
  (sheet_name_clean c → String.length c ≤ 31 → sheet_name_of c = c) ∧
  sheet_name_of (c +:+ "/") = sheet_name_of (c +:+ "_").
Proof.
  unfold sheet_name_of, sheet_name_clean. split_and!.
  - apply take_length.
  - apply has_char_take. do 2 (apply has_char_replace; [|done]).
    apply has_char_replace; [|done]. by apply has_char_replace_old.
  - apply has_char_take. do 2 (apply has_char_replace; [|done]).
    by apply has_char_replace_old.
  - apply has_char_take. apply has_char_replace; [|done].
    by apply has_char_replace_old.
  - apply has_char_take. by apply has_char_replace_old.
  - intros (H1 & H2 & H3 & H4) Hlen.
    rewrite (replace_char_absent "/"), (replace_char_absent "\"),
      (replace_char_absent "["), (replace_char_absent "]") by done.
    by apply take_short.
  - by rewrite !replace_char_append.
Qed.

Lemma sheet_name_of_spec_witness : sheet_name_of "Acme_West" = "Acme_West".
Proof. apply (sheet_name_of_spec "Acme_West"); [by vm_compute|simpl; lia]. Defined.

(** The detail rows of one contract. *)
Lemma detailed_data_of_contract s c Z :
  index_ok s → (c, Z) ∈ dict_items (contract_zip_map s) →
  List.filter (λ r, bool_decide (d_Contract_Name r = c)) (detailed_data s) =
    detail_of s c <$> Py.sorted (elements Z).
Proof.
  intros Hs Hin. pose proof (ok_keys s Hs) as Hnd.
  unfold detailed_data, dict_items, dict_keys in *.
  assert (∀ c' zs, c' ≠ c →
            List.filter (λ r, bool_decide (d_Contract_Name r = c)) (detail_of s c' <$> zs)
              = []) as Hother.
  { intros c' zs Hne. induction zs as [|z zs IH]; [done|]. csimpl.
    by rewrite bool_decide_false. }
  assert (∀ zs, List.filter (λ r, bool_decide (d_Contract_Name r = c))
                  (detail_of s c <$> zs) = detail_of s c <$> zs) as Hsame.
  { intros zs. induction zs as [|z zs IH]; [done|]. csimpl.
    rewrite bool_decide_true by done. by rewrite IH. }
  induction (contract_zip_map s) as [|[c' Z'] items IH]; [by apply elem_of_nil in Hin|].
  rewrite fmap_cons in Hnd. apply NoDup_cons in Hnd as [Hc' Hnd].
  csimpl. rewrite List.filter_app.
  apply elem_of_cons in Hin as [[= <- <-]|Hin].
  - rewrite Hsame.
    assert (List.filter (λ r, bool_decide (d_Contract_Name r = c))
              (items ≫= λ item, detail_of s item.1 <$> Py.sorted (elements item.2)) = [])
      as ->; [|by rewrite app_nil_r].
    clear IH Hnd. induction items as [|[c1 Z1] items IH0]; [done|].
    rewrite fmap_cons, not_elem_of_cons in Hc'. destruct Hc' as [Hne Hc'].
    csimpl. rewrite List.filter_app, IH0 by done.
    rewrite Hother; [done|]. by intros ->.
  - rewrite IH by done. rewrite Hother; [done|].
    intros ->. apply Hc', list_elem_of_fmap. by exists (c, Z).
Qed.



(** ** The Detailed Matches sheet *)

Lemma insert_sorted_Sorted x l :
  Sorted (λ z1 z2, String.leb z1 z2 = true) l →
  Sorted (λ z1 z2, String.leb z1 z2 = true) (Py.insert_sorted x l).
Proof.
  induction 1 as [|y l Hl IH Hhd]; simpl; [by repeat constructor|].
  destruct (String.leb x y) eqn:Hxy.
  - constructor; [by constructor|]. by constructor.
  - constructor; [done|].
    assert (String.leb y x = true) as Hyx.
    { destruct (String.leb_total x y) as [Hle|Hle]; [congruence|done]. }
    destruct Hhd as [|z l Hyz]; simpl; [by constructor|].
    destruct (String.leb x z); by constructor.
Qed.

(** [sorted] gives its argument in ascending order. *)
Lemma sorted_ascending l : Sorted (λ z1 z2, String.leb z1 z2 = true) (Py.sorted l).
Proof.
  unfold Py.sorted. induction l as [|x l IH]; simpl; [constructor|].
  by apply insert_sorted_Sorted.
Qed.

Lemma elem_of_detailed_data s r :
  r ∈ detailed_data s ↔
  ∃ c Z z, (c, Z) ∈ dict_items (contract_zip_map s) ∧ z ∈ Z ∧ r = detail_of s c z.
Proof.
  unfold detailed_data, dict_items. rewrite list_elem_of_bind. split.
  - intros ([c Z] & (z & -> & Hz)%list_elem_of_fmap & Hitem).
    exists c, Z, z. split_and!; [done| |done].
    by rewrite sorted_Permutation, elem_of_elements in Hz.
  - intros (c & Z & z & Hitem & Hz & ->). exists (c, Z). split; [|done].
    apply list_elem_of_fmap. exists z. split; [done|].
    by rewrite sorted_Permutation, elem_of_elements.
Qed.

Lemma detailed_data_pairs_NoDup s :
  index_ok s →
  NoDup ((λ r, (d_Contract_Name r, d_Zip_Code r)) <$> detailed_data s).
Proof.
  intros Hs. pose proof (ok_keys s Hs) as Hnd.
  unfold detailed_data. rewrite fmap_list_bind.
  apply NoDup_bind.
  - intros [c1 Z1] [c2 Z2] [c z] Hin1 Hin2.
    rewrite <- !list_fmap_compose.
    intros (z1 & [= -> _] & _)%list_elem_of_fmap (z2 & [= -> _] & _)%list_elem_of_fmap.
    simpl in *. f_equal.
    pose proof (elem_of_dict_get _ _ _ Hnd Hin1) as H1.
    pose proof (elem_of_dict_get _ _ _ Hnd Hin2) as H2. congruence.
  - intros [c Z] _. rewrite <- list_fmap_compose. apply NoDup_fmap_2.
    + by intros z1 z2 [= ->].
    + rewrite sorted_Permutation. apply NoDup_elements.
  - by eapply NoDup_fmap_1.
Qed.

Lemma detailed_data_names s :
  d_Contract_Name <$> detailed_data s =
    contract_zip_map s ≫= λ item, replicate (size item.2) item.1.
Proof.
  unfold detailed_data. rewrite fmap_list_bind.
  induction (contract_zip_map s) as [|[c Z] items IH]; [done|]. csimpl.
  rewrite IH. f_equal. rewrite <- list_fmap_compose.
  assert (size Z = length (Py.sorted (elements Z))) as ->
    by (by rewrite sorted_Permutation).
  induction (Py.sorted (elements Z)) as [|z zs IHz]; [done|]. csimpl. by rewrite IHz.
Qed.

(** X14. For an index that is not empty and a status column that holds
    text, the Detailed Matches sheet of the detailed report has one row for
    each pair of a contract of the index and one of its ZIPs, and no other
    row; the row carries the metadata of the contract and the state id
    recorded for the pair; the rows of a contract stand together, the
    contracts in the order of the index, and the ZIPs of a contract in
    ascending order. *)
Theorem detailed_matches_sheet sort_values s :
  reachable s → contract_zip_map s ≠ [] → statuses_are_text s →
  ∃ rows,
    written_sheet (analyze_main_data sort_values s).2
      detailed_contract_zip_matches_xlsx "Detailed Matches" = Some (DetailedTable rows) ∧
    NoDup ((λ r, (d_Contract_Name r, d_Zip_Code r)) <$> rows) ∧
    (∀ c z, (∃ r, r ∈ rows ∧ d_Contract_Name r = c ∧ d_Zip_Code r = z) ↔
            z ∈ members (contract_zip_map s) c) ∧
    (∀ r, r ∈ rows →
       state_of s (d_Contract_Name r) (d_Zip_Code r) = Some (d_State_ID r) ∧
       metadata_of s (d_Contract_Name r) =
         Some (d_Buyer_Name r, d_Buyer_ID r, d_Vertical_Name r, d_Contract_Status r)) ∧
    d_Contract_Name <$> rows =
      (contract_zip_map s ≫= λ item, replicate (size item.2) item.1) ∧
    (∀ c Z, (c, Z) ∈ dict_items (contract_zip_map s) →
       ∃ zips,
         d_Zip_Code <$> List.filter (λ r, bool_decide (d_Contract_Name r = c)) rows = zips ∧
         zips ≡ₚ elements Z ∧
         Sorted (λ z1 z2, String.leb z1 z2 = true) zips).
Proof.
  intros Hs%reachable_index_ok Hne _. exists (detailed_data s). split_and!.
  - destruct (analyze_main_data_run sort_values s Hs Hne)
      as (_ & active & counts & Hw & _).
    unfold written_sheet. rewrite Hw, !reverse_app.
    rewrite <- app_assoc, !dict_get_app.
    rewrite dict_get_None; [done|by intros ?%batch_files_keys].
  - by apply detailed_data_pairs_NoDup.
  - intros c z. split.
    + intros (r & (c' & Z & z' & Hitem & Hz & ->)%elem_of_detailed_data & <- & <-).
      simpl. by destruct (index_ok_item s c' Z Hs Hitem) as (-> & _).
    + intros Hz. exists (detail_of s c z). split; [|done].
      apply elem_of_detailed_data. exists c, (members (contract_zip_map s) c), z.
      split_and!; [|done..].
      apply members_elem_of_keys, elem_of_dict_keys in Hz as Hkey.
      destruct Hkey as [Z HZ]. rewrite (members_get _ _ _ HZ).
      by apply dict_get_elem_of.
  - intros r (c & Z & z & Hitem & Hz & ->)%elem_of_detailed_data. simpl.
    destruct (index_ok_item s c Z Hs Hitem) as (HZ & Hkey & _).
    destruct (ok_info s Hs c Hkey) as (i & Hi & Hstates).
    destruct (Hstates z) as [sid Hsid]; [by rewrite HZ|].
    unfold state_of, metadata_of, info_of. rewrite Hi. simpl. by rewrite Hsid.
  - apply detailed_data_names.
  - intros c Z Hitem. eexists. split; [done|].
    rewrite (detailed_data_of_contract s c Z Hs Hitem), <- list_fmap_compose.
    change (d_Zip_Code ∘ detail_of s c) with (@id string). rewrite list_fmap_id.
    split; [apply sorted_Permutation|apply sorted_ascending].
Qed.

Lemma detailed_matches_sheet_witness :
  ∃ rows,
    written_sheet (analyze_main_data sort_values_stable scenario_A).2
      detailed_contract_zip_matches_xlsx "Detailed Matches" = Some (DetailedTable rows) ∧
    NoDup ((λ r, (d_Contract_Name r, d_Zip_Code r)) <$> rows).
Proof.
  destruct (detailed_matches_sheet sort_values_stable scenario_A scenario_A_reachable
              scenario_A_not_empty scenario_A_statuses)
    as (rows & Hw & Hnd & _).
  exists rows. split; [exact Hw|exact Hnd].
Defined.

(** ** A query file that is not taken *)





(** ** The match counts of a query *)









(** ** The order of a query *)

(** X17. The match rows of a query depend on the set of the values of its
    ZIP column only: two columns with the same values, in any order and
    with any repetitions, give the same rows up to their order. *)
Theorem query_order_irrelevant s column column' :
  (∀ v, v ∈ column ↔ v ∈ column') →
  match_results_of s (normalize_zips column) ≡ₚ
    match_results_of s (normalize_zips column').
Proof.
  intros Hsame. unfold match_results_of.
  destruct (normalize_zips_spec column) as [Hnd Hin].
  destruct (normalize_zips_spec column') as [Hnd' Hin'].
  assert (normalize_zips column ≡ₚ normalize_zips column') as ->; [|done].
  apply NoDup_Permutation; [done..|].
  intros z. rewrite Hin, Hin'. by setoid_rewrite Hsame.
Qed.

Lemma query_order_irrelevant_witness :
  match_results_of scenario_A (normalize_zips [Str "ZIP1"; Str "ZIP2"; Str "ZIP1"]) ≡ₚ
    match_results_of scenario_A (normalize_zips [Str "ZIP2"; Str "ZIP1"]).
Proof.
  apply (query_order_irrelevant scenario_A
           [Str "ZIP1"; Str "ZIP2"; Str "ZIP1"] [Str "ZIP2"; Str "ZIP1"]).
  intros v. rewrite !elem_of_cons, !elem_of_nil. tauto.
Defined.

(** ** What the analyses never undo *)

Lemma extends_refl s : extends s s.
Proof. by repeat split. Qed.

Lemma extends_trans s1 s2 s3 : extends s1 s2 → extends s2 s3 → extends s1 s3.
Proof.
  intros (Hm1 & Hi1 & Hl1 & Hw1 & Ho1) (Hm2 & Hi2 & Hl2 & Hw2 & Ho2).
  split_and!; [congruence|congruence|by etrans..].
Qed.

Lemma framed_ret {A} (a : A) : framed (mret a).
Proof. intros s. apply extends_refl. Qed.

Lemma framed_bind {A B} (m : M A) (f : A → M B) :
  framed m → (∀ a, framed (f a)) → framed (m ≫= f).
Proof.
  intros Hm Hf s. rewrite bind_run. specialize (Hm s).
  destruct (m s) as [[a|e] s1]; simpl in *; [|done].
  eapply extends_trans; [done|apply Hf].
Qed.

Lemma framed_raise {A} e : framed (raise (A:=A) e).
Proof. intros s. apply extends_refl. Qed.

Lemma framed_gets {A} (f : session_state → A) : framed (gets f).
Proof. intros s. apply extends_refl. Qed.

Lemma framed_log_message msg : framed (log_message msg).
Proof. intros s. split_and!; simpl; try done. by apply prefix_app_r. Qed.

Lemma framed_write_excel file sheets : framed (write_excel file sheets).
Proof. intros s. split_and!; simpl; try done. by apply prefix_app_r. Qed.

Lemma framed_register_output file : framed (register_output file).
Proof.
  intros s. split_and!; simpl; try done.
  intros f Hf. apply elem_of_dict_keys_set. by right.
Qed.

Lemma framed_zip_contract_map_getitem k : framed (zip_contract_map_getitem k).
Proof.
  intros s. unfold zip_contract_map_getitem.
  destruct (dict_get (zip_contract_map s) k); by repeat split.
Qed.

Lemma framed_contract_zip_map_getitem k : framed (contract_zip_map_getitem k).
Proof.
  intros s. unfold contract_zip_map_getitem.
  destruct (dict_get (contract_zip_map s) k); by repeat split.
Qed.

Lemma framed_contract_info_getitem k : framed (contract_info_getitem k).
Proof.
  intros s. unfold contract_info_getitem.
  destruct (dict_get (contract_info s) k); by repeat split.
Qed.

Lemma framed_try_except body handler :
  framed body → (∀ e, framed (handler e)) → framed (try_except body handler).
Proof.
  intros Hbody Hhandler s. unfold try_except. specialize (Hbody s).
  destruct (body s) as [[[]|e] s1]; simpl in *; [done|].
  eapply extends_trans; [done|apply Hhandler].
Qed.

Lemma framed_for_collect {A B} (l : list A) (body : A → M (list B)) :
  (∀ x, framed (body x)) → framed (for_collect l body).
Proof.
  intros Hbody. induction l as [|x l IH]; simpl; [apply framed_ret|].
  apply framed_bind; [done|]. intros ys.
  apply framed_bind; [done|]. intros zs. apply framed_ret.
Qed.

Create HintDb frame.

#[local] Hint Resolve framed_ret framed_raise framed_gets framed_log_message
  framed_write_excel framed_register_output framed_zip_contract_map_getitem
  framed_contract_zip_map_getitem framed_contract_info_getitem : frame.

(** Goes through a computation bind by bind, and by cases where it
    branches on a value. *)
Ltac frame :=
  repeat first
    [ progress eauto with frame
    | apply framed_bind
    | apply framed_try_except
    | apply framed_for_collect
    | match goal with
      | |- ∀ _, _ => intros ?
      | |- framed (match ?x with _ => _ end) => destruct x
      end
    | progress cbn beta ].

Lemma framed_log_top i rows : framed (log_top i rows).
Proof. revert i. induction rows as [|[c n] rows IH]; intros i; simpl; frame. Qed.

Lemma framed_count_overlaps contract zips n acc :
  framed (count_overlaps contract zips n acc).
Proof. revert n acc. induction zips as [|z zips IH]; intros n acc; simpl; frame. Qed.

Lemma framed_export_batches detailed_df contracts starts batch_num :
  framed (export_batches detailed_df contracts starts batch_num).
Proof.
  revert batch_num. induction starts as [|i starts IH]; intros bn;
    cbn [export_batches]; frame.
Qed.

#[local] Hint Resolve framed_log_top framed_count_overlaps
  framed_export_batches : frame.

Lemma framed_summary_entry item : framed (summary_entry item).
Proof. unfold summary_entry. frame. Qed.

Lemma framed_detail_entries item : framed (detail_entries item).
Proof. unfold detail_entries, detail_entry. frame. Qed.

Lemma framed_match_zip z : framed (match_zip z).
Proof. unfold match_zip, match_entry. frame. Qed.

#[local] Hint Resolve framed_summary_entry framed_detail_entries framed_match_zip : frame.

Lemma framed_analyze_main_data sort_values : framed (analyze_main_data sort_values).
Proof. unfold analyze_main_data. frame. Qed.

Lemma framed_analyze_new_zips sort_values new_zip_file :
  framed (analyze_new_zips sort_values new_zip_file).
Proof. unfold analyze_new_zips. frame. Qed.

(** X18. What the two analyses never undo, in any state of the session,
    also one that no load has made, whatever the sort does and however the
    call ends: [main_file_loaded] and [contract_info] are as before, every
    earlier log line and every workbook written before is still there, in
    its place, and every file registered in [output_files] is still
    registered. *)
Theorem analyses_never_undo sort_values new_zip_file s :
  extends s (analyze_main_data sort_values s).2 ∧
  extends s (analyze_new_zips sort_values new_zip_file s).2.
Proof.
  split; [apply framed_analyze_main_data|apply framed_analyze_new_zips].
Qed.

(** ** The match counts of the detailed report *)

Lemma count_matches_keys detailed_df :
  NoDup (dict_keys (count_matches detailed_df)) ∧
  ∀ c, c ∈ dict_keys (count_matches detailed_df) ↔
       ∃ r, r ∈ detailed_df ∧ MATCH r ≠ EmptyString ∧ d_Contract_Name r = c.
Proof.
  unfold count_matches.
  assert (∀ counts, NoDup (dict_keys counts) →
    NoDup (dict_keys (foldl (λ counts r,
             if decide (MATCH r = EmptyString) then counts
             else counter_add counts (d_Contract_Name r)
                    (length (Py.split ", " (MATCH r)))) counts detailed_df)) ∧
    ∀ c, c ∈ dict_keys (foldl (λ counts r,
             if decide (MATCH r = EmptyString) then counts
             else counter_add counts (d_Contract_Name r)
                    (length (Py.split ", " (MATCH r)))) counts detailed_df) ↔
         c ∈ dict_keys counts ∨
         ∃ r, r ∈ detailed_df ∧ MATCH r ≠ EmptyString ∧ d_Contract_Name r = c) as Hgen.
  { induction detailed_df as [|r rows IH]; intros counts Hnd; simpl.
    - split; [done|]. intros c. split; [by left|].
      by intros [?|(r & ?%elem_of_nil & _)].
    - destruct (decide (MATCH r = EmptyString)) as [Hempty|Hmatch].
      + destruct (IH counts Hnd) as [Hnd' Hin]. split; [done|].
        intros c. rewrite Hin. split.
        * intros [?|(r' & ? & ? & ?)]; [by left|]. right. exists r'.
          split; [by right|done].
        * intros [?|(r' & [->|?]%elem_of_cons & ? & ?)]; [by left|done|].
          right. by exists r'.
      + destruct (IH (counter_add counts (d_Contract_Name r)
                        (length (Py.split ", " (MATCH r))))) as [Hnd' Hin].
        { by apply dict_keys_set_NoDup. }
        split; [done|]. intros c. rewrite Hin. unfold counter_add.
        rewrite elem_of_dict_keys_set. split.
        * intros [[->|?]|(r' & ? & ? & ?)]; [right|by left|right].
          -- exists r. split; [left|done].
          -- exists r'. split; [by right|done].
        * intros [?|(r' & [->|?]%elem_of_cons & ? & ?)];
            [by left; right|by left; left|].
          right. by exists r'. }
  destruct (Hgen [] ltac:(constructor)) as [Hnd Hin]. split; [done|].
  intros c. rewrite Hin. unfold dict_keys at 1. simpl.
  rewrite elem_of_nil. tauto.
Qed.

(** X19. For an index that is not empty and a status column that holds
    text: when no contract name is empty or holds the separator ", ", the
    Contract Match Counts sheet of the detailed report agrees with the
    Contract Summary sheet: a contract is there with the count n exactly
    when n is its overlap count and is not zero; each contract has at most
    one row, and the rows are in descending order of the count. *)
Theorem match_counts_sheet_without_separator sort_values s :
  sort_contract sort_values → reachable s → contract_zip_map s ≠ [] →
  statuses_are_text s →
  (∀ c, c ∈ dict_keys (contract_zip_map s) →
     c ≠ EmptyString ∧ Py.contains ", " c = false) →
  ∃ counts,
    written_sheet (analyze_main_data sort_values s).2
      detailed_contract_zip_matches_xlsx "Contract Match Counts" =
      Some (MatchCountsTable counts) ∧
    StronglySorted (λ x y, y.2 ≤ x.2) counts ∧
    NoDup counts.*1 ∧
    (∀ c n, (c, n) ∈ counts ↔
       0 < n ∧ ∃ Z, (c, Z) ∈ dict_items (contract_zip_map s) ∧ n = overlap_count s c Z).
Proof.
  intros Hsort Hr Hne _ Hnames. pose proof (reachable_index_ok s Hr) as Hs.
  destruct (analyze_main_data_written sort_values s Hs Hne) as [_ Hw].
  destruct (Hsort _ snd (dict_items (count_matches (detailed_data s))))
    as [Hperm Hsorted].
  destruct (count_matches_keys (detailed_data s)) as [Hnd Hkeys].
  eexists. split_and!; [exact Hw|done|by rewrite Hperm|].
  intros c n. rewrite Hperm. unfold dict_items at 1.
  assert (∀ Z z, (c, Z) ∈ dict_items (contract_zip_map s) → z ∈ Z →
            MATCH (detail_of s c z) ≠ EmptyString ↔
            members (zip_contract_map s) z ∖ {[c]} ≠ ∅) as Hmatch.
  { intros Z z Hitem Hz. simpl.
    destruct (decide (members (zip_contract_map s) z ∖ {[c]} = ∅)) as [Hempty|Hothers];
      [done|]. split; [done|]. intros _.
    destruct (Py.sorted (elements (members (zip_contract_map s) z ∖ {[c]})))
      as [|x names] eqn:Hnames_eq.
    { destruct Hothers. apply leibniz_equiv, elements_empty_inv, Permutation_nil_r.
      by rewrite <- (sorted_Permutation (elements _)), Hnames_eq. }
    apply join_nonempty.
    assert (x ∈ elements (members (zip_contract_map s) z ∖ {[c]})) as Hx.
    { rewrite <- (sorted_Permutation (elements _)), Hnames_eq. left. }
    apply elem_of_elements, elem_of_difference in Hx as [Hx _].
    by apply Hnames, (index_ok_zip s z x Hs). }
  assert (∀ Z, (c, Z) ∈ dict_items (contract_zip_map s) →
            c ∈ dict_keys (count_matches (detailed_data s)) ↔ 0 < overlap_count s c Z)
    as Hkey.
  { intros Z Hitem. rewrite Hkeys.
    pose proof (overlap_zero_iff s c Z) as Hzero.
    rewrite size_empty_iff in Hzero.
    assert (0 < overlap_count s c Z ↔ overlapping_contracts s c Z ≢ ∅) as ->
      by (rewrite Hzero; lia).
    split.
    - intros (r & (c' & Z' & z & Hitem' & Hz & ->)%elem_of_detailed_data & Hm & Hname).
      simpl in Hname. subst c'.
      assert (Z' = Z) as ->.
      { pose proof (elem_of_dict_get _ _ _ (ok_keys s Hs) Hitem).
        pose proof (elem_of_dict_get _ _ _ (ok_keys s Hs) Hitem'). congruence. }
      apply (Hmatch Z z Hitem Hz) in Hm.
      apply set_choose_L in Hm as [c' Hc'].
      intros Hempty. apply (not_elem_of_empty (C:=gset string) c'). rewrite <- Hempty.
      apply elem_of_overlapping_contracts. set_solver.
    - intros [c' (Hc' & z & Hz & Hin)%elem_of_overlapping_contracts]%set_choose.
      exists (detail_of s c z). split_and!; [|by apply (Hmatch Z z Hitem Hz); set_solver|done].
      apply elem_of_detailed_data. by exists c, Z, z. }
  split.
  - intros Hin%(elem_of_dict_get _ _ _ Hnd).
    assert (c ∈ dict_keys (count_matches (detailed_data s))) as Hc
      by (apply elem_of_dict_keys; by eauto).
    apply Hkeys in Hc as Hrow.
    destruct Hrow as (r & (c' & Z & z & Hitem & Hz & ->)%elem_of_detailed_data & _ & Hname).
    simpl in Hname. subst c'.
    pose proof (match_counts_without_separator s c Z Hs Hnames Hitem) as Hget.
    unfold counter_get in Hget. rewrite Hin in Hget. simpl in Hget. subst n.
    split; [by apply (Hkey Z Hitem)|]. by exists Z.
  - intros (Hpos & Z & Hitem & ->). apply dict_get_elem_of.
    apply (Hkey Z Hitem) in Hpos as [n Hn]%elem_of_dict_keys.
    pose proof (match_counts_without_separator s c Z Hs Hnames Hitem) as Hget.
    unfold counter_get in Hget. rewrite Hn in Hget. simpl in Hget. by rewrite Hn, Hget.
Qed.

Lemma match_counts_sheet_without_separator_witness :
  ∃ counts,
    written_sheet (analyze_main_data sort_values_stable scenario_A).2
      detailed_contract_zip_matches_xlsx "Contract Match Counts" =
      Some (MatchCountsTable counts) ∧
    StronglySorted (λ x y, y.2 ≤ x.2) counts ∧
    NoDup counts.*1.
Proof.
  destruct (match_counts_sheet_without_separator sort_values_stable scenario_A
              sort_values_stable_contract scenario_A_reachable scenario_A_not_empty
              scenario_A_statuses)
    as (counts & Hw & Hsorted & Hnd & _).
  - intros c Hc. vm_compute in Hc.
    apply elem_of_cons in Hc as [->|Hc]; [done|].
    apply elem_of_cons in Hc as [->|Hc]; [done|].
    apply elem_of_cons in Hc as [->|Hc]; [done|].
    by apply elem_of_nil in Hc.
  - exists counts. split_and!; [exact Hw|exact Hsorted|exact Hnd].
Defined.

(** ** The Active Counts sheet *)

Lemma length_unique_Permutation {A} `{EqDecision A} (l l' : list A) :
  l ≡ₚ l' → length (Py.unique l) = length (Py.unique l').
Proof.
  intros Hperm. destruct (unique_spec l) as [Hnd Hin].
  destruct (unique_spec l') as [Hnd' Hin'].
  apply Permutation_length, NoDup_Permutation; [done..|].
  intros x. by rewrite Hin, Hin', Hperm.
Qed.

Lemma active_counts_Permutation l l' :
  l ≡ₚ l' → active_counts l = active_counts l'.
Proof.
  intros Hperm. unfold active_counts.
  pose proof (List_filter_Permutation (λ r, is_active (s_Contract_Status r)) _ _ Hperm)
    as Hfilter.
  f_equal; [by rewrite Hfilter|].
  apply length_unique_Permutation. by rewrite Hfilter.
Qed.

(** The Active Counts sheets [analyze_main_data] writes. *)
Lemma analyze_main_data_active_sheets
    (sort_values : ∀ A : Type, (A → nat) → list A → list A) s :
  index_ok s → contract_zip_map s ≠ [] →
  let counts := active_counts (sort_values _ Total_ZIP_Codes (summary_data s)) in
  written_sheet (analyze_main_data sort_values s).2 contract_summary_xlsx "Active Counts"
    = Some (ActiveCountsTable counts.1 counts.2) ∧
  written_sheet (analyze_main_data sort_values s).2
      detailed_contract_zip_matches_xlsx "Active Counts"
    = Some (ActiveCountsTable counts.1 counts.2).
Proof.
  intros Hs Hne counts. subst counts.
  assert (∃ batch_writes,
            excel_writes (analyze_main_data sort_values s).2 =
              excel_writes s ++
              [ (contract_summary_xlsx,
                 [("Contract Summary",
                   SummaryTable (sort_values _ Total_ZIP_Codes (summary_data s)));
                  ("Active Counts",
                   ActiveCountsTable
                     (active_counts (sort_values _ Total_ZIP_Codes (summary_data s))).1
                     (active_counts (sort_values _ Total_ZIP_Codes (summary_data s))).2)]);
                (detailed_contract_zip_matches_xlsx,
                 [("Detailed Matches", DetailedTable (detailed_data s));
                  ("Contract Match Counts",
                   MatchCountsTable
                     (sort_values _ snd (dict_items (count_matches (detailed_data s)))));
                  ("Active Counts",
                   ActiveCountsTable
                     (active_counts (sort_values _ Total_ZIP_Codes (summary_data s))).1
                     (active_counts (sort_values _ Total_ZIP_Codes (summary_data s))).2)]) ]
              ++ batch_writes ∧
            ∀ file, file ∈ dict_keys (reverse batch_writes) → is_batch_file file = true)
    as (batch_writes & Hw & Hbatch).
  { unfold analyze_main_data, try_except, dict_items.
    repeat (rewrite bind_run; simpl).
    match goal with
    | |- context [for_collect _ summary_entry ?s1] =>
        assert (same_index s s1) as H1 by (by repeat split);
        pose proof (summary_data_run s1 (index_ok_same_index _ _ H1 Hs)) as Hrun;
        simpl in Hrun; rewrite Hrun, (summary_data_same_index _ _ H1); clear Hrun H1
    end.
    destruct (summary_data s) as [|row0 rows] eqn:Hsum.
    { unfold summary_data in Hsum. by apply fmap_nil_inv in Hsum. }
    rewrite bind_run; simpl. rewrite <- Hsum. clear Hsum row0 rows.
    repeat (rewrite bind_run; simpl).
    match goal with
    | |- context [for_collect _ detail_entries ?s1] =>
        assert (same_index s s1) as H1 by (by repeat split);
        pose proof (detailed_data_run s1 (index_ok_same_index _ _ H1 Hs)) as Hrun;
        simpl in Hrun; rewrite Hrun, (detailed_data_same_index _ _ H1); clear Hrun H1
    end.
    repeat (rewrite bind_run; simpl).
    match goal with
    | |- context [log_top ?i ?rows ?s1] =>
        destruct (log_top_run i rows s1) as (msgs & -> & _)
    end.
    repeat (rewrite bind_run; simpl).
    match goal with
    | |- context [export_batches ?d ?c ?st ?bn ?s1] =>
        destruct (export_batches_run d c st bn s1) as (r & s2 & -> & _ & _ & _ & Hw)
    end.
    simpl in Hw. eexists. split.
    - destruct r as [batch_num|]; repeat (rewrite bind_run; simpl);
        rewrite <- !app_assoc in Hw; exact Hw.
    - intros file. apply batch_files_keys. }
  unfold written_sheet. rewrite Hw, !reverse_app.
  rewrite <- app_assoc, !dict_get_app.
  split; (rewrite dict_get_None; [done|by intros ?%Hbatch]).
Qed.

(** X20. For an index that is not empty and a status column that holds
    text, the Active Counts sheet is the same in the summary and in the
    detailed report, and the sort has no part in it: its first count is
    the number of the contracts of the index whose recorded status reads
    "active" in any case of the letters, its second is the number of
    distinct buyer names recorded for these contracts. *)
Theorem active_counts_sheet sort_values s :
  sort_contract sort_values → reachable s → contract_zip_map s ≠ [] →
  statuses_are_text s →
  let active :=
    List.filter (λ c, is_active (contract_status (info_of s c)))
      (dict_keys (contract_zip_map s)) in
  ∃ buyers,
    NoDup buyers ∧
    (∀ b, b ∈ buyers ↔ ∃ c, c ∈ active ∧ buyer_name (info_of s c) = b) ∧
    written_sheet (analyze_main_data sort_values s).2 contract_summary_xlsx "Active Counts"
      = Some (ActiveCountsTable (length active) (length buyers)) ∧
    written_sheet (analyze_main_data sort_values s).2
        detailed_contract_zip_matches_xlsx "Active Counts"
      = Some (ActiveCountsTable (length active) (length buyers)).
Proof.
  intros Hsort Hs%reachable_index_ok Hne _ active.
  destruct (analyze_main_data_active_sheets sort_values s Hs Hne) as [Hw1 Hw2].
  destruct (Hsort _ Total_ZIP_Codes (summary_data s)) as [Hperm _].
  rewrite (active_counts_Permutation _ _ Hperm) in Hw1, Hw2.
  unfold active_counts in Hw1, Hw2. simpl in Hw1, Hw2.
  assert (List.filter (λ r, is_active (s_Contract_Status r)) (summary_data s) =
          (λ c, summary_of s (c, members (contract_zip_map s) c)) <$> active) as Hactive.
  { assert (summary_data s =
            (λ c, summary_of s (c, members (contract_zip_map s) c)) <$>
              dict_keys (contract_zip_map s)) as ->.
    { unfold summary_data, dict_keys. rewrite <- list_fmap_compose.
      apply list_fmap_ext. intros i [c Z] Hitem%list_elem_of_lookup_2. simpl.
      by destruct (index_ok_item s c Z Hs Hitem) as [-> _]. }
    by rewrite filter_map_swap. }
  rewrite Hactive in Hw1, Hw2. rewrite length_fmap in Hw1, Hw2.
  rewrite <- list_fmap_compose in Hw1, Hw2.
  exists (Py.unique ((s_Buyer_Name ∘ (λ c, summary_of s (c, members (contract_zip_map s) c)))
                       <$> active)).
  destruct (unique_spec ((s_Buyer_Name ∘ (λ c, summary_of s (c, members (contract_zip_map s) c)))
                       <$> active)) as [Hnd Hin].
  split_and!; [done| |done|done].
  intros b. rewrite Hin, list_elem_of_fmap. naive_solver.
Qed.

Lemma active_counts_sheet_witness :
  ∃ buyers : list cell,
    NoDup buyers ∧
    written_sheet (analyze_main_data sort_values_reversing scenario_A).2
      contract_summary_xlsx "Active Counts" =
      Some (ActiveCountsTable
              (length (List.filter (λ c, is_active (contract_status (info_of scenario_A c)))
                         (dict_keys (contract_zip_map scenario_A))))
              (length buyers)).
Proof.
  destruct (active_counts_sheet sort_values_reversing scenario_A
              sort_values_reversing_contract scenario_A_reachable scenario_A_not_empty
              scenario_A_statuses)
    as (buyers & Hnd & _ & Hw & _).
  exists buyers. split; [exact Hnd|exact Hw].
Defined.

(** ** What ingesting rows never undoes *)

Lemma dict_keys_set_prefix {K V} `{EqDecision K} (d : dict K V) k v :
  dict_keys d `prefix_of` dict_keys (dict_set d k v).
Proof.
  rewrite dict_keys_set. destruct (dict_in k d); [done|]. by apply prefix_app_r.
Qed.

Lemma index_row_grows r z s :
  dict_keys (contract_zip_map s) `prefix_of` dict_keys (contract_zip_map (index_row r z s)) ∧
  dict_keys (zip_contract_map s) `prefix_of` dict_keys (zip_contract_map (index_row r z s)) ∧
  (∀ c m, metadata_of s c = Some m → metadata_of (index_row r z s) c = Some m).
Proof.
  unfold index_row; simpl. split_and!; [apply dict_keys_set_prefix..|].
  intros c m. unfold metadata_of; simpl. rewrite dict_get_set.
  destruct (decide (c = Contract_Name r)) as [->|]; [|done].
  by destruct (dict_get (contract_info s) (Contract_Name r)).
Qed.

(** X21. Ingesting rows only adds to the index, in any state: the
    contracts and the ZIPs that were there keep their places in the order
    of the keys, new ones come after them; no pair is lost; the metadata
    of a contract that had some is kept, whatever the new rows say; and the
    flag, the log, the registered files and the written workbooks are not
    touched. *)
Theorem process_chunk_only_adds rows s :
  dict_keys (contract_zip_map s) `prefix_of`
    dict_keys (contract_zip_map (process_chunk rows s).2) ∧
  dict_keys (zip_contract_map s) `prefix_of`
    dict_keys (zip_contract_map (process_chunk rows s).2) ∧
  (∀ c, members (contract_zip_map s) c ⊆
        members (contract_zip_map (process_chunk rows s).2) c) ∧
  (∀ z, members (zip_contract_map s) z ⊆
        members (zip_contract_map (process_chunk rows s).2) z) ∧
  (∀ c m, metadata_of s c = Some m → metadata_of (process_chunk rows s).2 c = Some m) ∧
  main_file_loaded (process_chunk rows s).2 = main_file_loaded s ∧
  logs (process_chunk rows s).2 = logs s ∧
  output_files (process_chunk rows s).2 = output_files s ∧
  excel_writes (process_chunk rows s).2 = excel_writes s.
Proof.
  split_and!; try apply process_chunk_frame.
  - apply (process_chunk_preserves
             (λ s', dict_keys (contract_zip_map s) `prefix_of` dict_keys (contract_zip_map s')));
      [|done].
    intros r z s' Hs'. etrans; [done|]. apply index_row_grows.
  - apply (process_chunk_preserves
             (λ s', dict_keys (zip_contract_map s) `prefix_of` dict_keys (zip_contract_map s')));
      [|done].
    intros r z s' Hs'. etrans; [done|]. apply index_row_grows.
  - intros c z Hz. apply process_chunk_members. by left.
  - intros z c Hc. apply process_chunk_members. by left.
  - intros c m Hm.
    apply (process_chunk_preserves (λ s', metadata_of s' c = Some m)); [|done].
    intros r z s' Hs'. by apply index_row_grows.
Qed.

(** ** The log of a query *)




